(** * tf_module_updater: a shallow embedding of [tf_module_updater.py]

    The script scans a directory tree for Terraform module declarations, asks
    a module registry for the published versions of each module, prints a
    comparison table and optionally rewrites the [version] field of a
    declaration.

    The embedding follows the Python source function by function and keeps
    its names.

    - Strings are Rocq strings; the string methods the script calls are in
      module [Py].
    - An exception is a value of [exn]; a computation that may raise returns
      a [result].  A [try] statement is [try_except], with the test its
      [except] clause makes on the class of the exception.
    - Files, what has been printed, the keyboard, the requests sent and the
      clock are the components of a [World]; a function that touches them is
      a state-passing computation [IO].
    - Values that [json] and [hcl2] produce keep their dynamic shape
      ([pyval]), since the script takes them apart without checking it.
    - The libraries [packaging], [requests], [hcl2], [json] and [os] are not
      code of the script: each is an interface (a class), and every general
      statement holds for all implementations.  Module [Pep440] implements
      [packaging] on plain release versions and module [Fixture] holds test
      doubles of the others, so that the script can be run on examples.
    - Parsing of the command line and the configuration of logging are left
      out; a printed line is an [event] that carries the values the line is
      formatted from. *)

From Stdlib Require Import String Ascii ZArith List Bool Lia Permutation Sorted.
From stdpp Require Import base option list gmap strings.
Import ListNotations.

Local Open Scope string_scope.
Local Open Scope list_scope.
Local Open Scope Z_scope.

(** ** Python strings

    A Python [str] is a sequence of code points.  The embedding uses Rocq's
    [string], whose characters are the code points below 256. *)

Module Py.

(** [str.split(sep)] for a one-character separator: never returns an
    empty list, and keeps empty fields. *)
Fixpoint split (sep : ascii) (s : string) : list string :=
  match s with
  | EmptyString => [EmptyString]
  | String c s' =>
      if Ascii.eqb c sep then EmptyString :: split sep s'
      else match split sep s' with
           | [] => [String c EmptyString]
           | h :: t => String c h :: t
           end
  end.

(** [c in s] for a one-character [c]. *)
Fixpoint contains (c : ascii) (s : string) : bool :=
  match s with
  | EmptyString => false
  | String d s' => Ascii.eqb d c || contains c s'
  end.

(** [s.startswith(c)] for a one-character prefix. *)
Definition startswith (c : ascii) (s : string) : bool :=
  match s with
  | String d _ => Ascii.eqb d c
  | EmptyString => false
  end.

(** [s.endswith(suffix)]. *)
Definition endswith (suffix s : string) : bool :=
  let n := String.length s in
  let m := String.length suffix in
  (m <=? n)%nat && String.eqb (substring (n - m) m s) suffix.

(** [s.replace(c, '')]: every occurrence of [c] is removed. *)
Fixpoint remove_all (c : ascii) (s : string) : string :=
  match s with
  | EmptyString => EmptyString
  | String d s' =>
      if Ascii.eqb d c then remove_all c s' else String d (remove_all c s')
  end.

(** [str.isspace] on one code point below 256. *)
Definition isspace (c : ascii) : bool :=
  let n := nat_of_ascii c in
  ((9 <=? n) && (n <=? 13) || (28 <=? n) && (n <=? 32)
   || (n =? 133) || (n =? 160))%nat.

Fixpoint lstrip (s : string) : string :=
  match s with
  | String c s' => if isspace c then lstrip s' else s
  | EmptyString => EmptyString
  end.

Fixpoint rstrip (s : string) : string :=
  match s with
  | EmptyString => EmptyString
  | String c s' =>
      match rstrip s' with
      | EmptyString => if isspace c then EmptyString else String c EmptyString
      | r => String c r
      end
  end.

(** [s.strip()]. *)
Definition strip (s : string) : string := rstrip (lstrip s).

(** [s.rstrip(c)] for a one-character set. *)
Fixpoint rstrip_char (c : ascii) (s : string) : string :=
  match s with
  | EmptyString => EmptyString
  | String d s' =>
      match rstrip_char c s' with
      | EmptyString => if Ascii.eqb d c then EmptyString else String d EmptyString
      | r => String d r
      end
  end.

Definition lower_char (c : ascii) : ascii :=
  let n := nat_of_ascii c in
  if ((65 <=? n) && (n <=? 90)
      || (192 <=? n) && (n <=? 222) && negb (n =? 215))%nat
  then ascii_of_nat (n + 32) else c.

(** [s.lower()]. *)
Fixpoint lower (s : string) : string :=
  match s with
  | EmptyString => EmptyString
  | String c s' => String (lower_char c) (lower s')
  end.

(** Truth value of a string: non-empty. *)
Definition truthy (s : string) : bool :=
  match s with EmptyString => false | _ => true end.

End Py.

(** ** Exceptions and results *)

Inductive exn : Type :=
| SystemExit (code : Z)
| FileNotFoundError
| PermissionError
| KeyError
| IndexError
| TypeError
| AttributeError
| EOFError
| JSONDecodeError
| InvalidVersion
| InvalidSpecifier
| HclError
| HTTPError (status : Z)
| RequestException.

(** [isinstance(e, Exception)]: [SystemExit] derives from [BaseException]
    only. *)
Definition is_Exception (e : exn) : bool :=
  match e with SystemExit _ => false | _ => true end.

(** [isinstance(e, requests.RequestException)]. *)
Definition is_RequestException (e : exn) : bool :=
  match e with HTTPError _ | RequestException => true | _ => false end.

Inductive result (A : Type) : Type :=
| Ok (a : A)
| Raise (e : exn).
Arguments Ok {A} a.
Arguments Raise {A} e.

(** A library call that raises one known exception. *)
Definition or_raise {A} (e : exn) (o : option A) : result A :=
  match o with Some a => Ok a | None => Raise e end.

(** ** Source locator *)

Inductive registry_kind : Type := private | public.

Record ModuleInfo : Type := {
  registry : registry_kind;
  hostname : string;
  namespace : string;
  module : string;
  provider : string
}.

(** [None] is the last branch of the source, which logs a warning; the
    warning is the event [InvalidSource] where the scan calls this
    function. *)
Definition parse_module_source (source : string) : option ModuleInfo :=
  let parts := Py.split "/" source in
  if (4 <=? length parts)%nat && Py.contains "." (nth 0 parts "") then
    Some {| registry := private;
            hostname := nth 0 parts "";
            namespace := nth 1 parts "";
            module := nth 2 parts "";
            provider := nth 3 parts "" |}
  else if (3 <=? length parts)%nat then
    Some {| registry := public;
            hostname := "registry.terraform.io";
            namespace := nth 0 parts "";
            module := nth 1 parts "";
            provider := nth 2 parts "" |}
  else None.

(** ** The [packaging] library

    [packaging.version] and [packaging.specifiers] are third-party code.
    The script uses three entry points: [version.parse], the constructor
    [specifiers.SpecifierSet] and the membership test [v in spec].  Each may
    raise ([InvalidVersion], [InvalidSpecifier]); [None] stands for a raised
    exception.  Whether the membership test raises on a string that is not a
    version depends on the release of the library: 22 to 25 raise
    [InvalidVersion], 26 answers [False]. *)

Class Packaging : Type := {
  Version : Type;
  (** [Version.__lt__]; [a > b] is [version_lt b a]. *)
  version_lt : Version -> Version -> bool;
  (** [version.parse(s)] *)
  version_parse : string -> option Version;
  SpecifierSet : Type;
  (** [specifiers.SpecifierSet(constraint)] *)
  SpecifierSet_init : string -> option SpecifierSet;
  (** [item in spec] *)
  SpecifierSet_contains : SpecifierSet -> string -> option bool
}.

(** Versions compare through a key tuple, so [<] is a strict weak order. *)
Class PackagingLaws (P : Packaging) : Prop := {
  version_lt_irrefl : forall a, version_lt a a = false;
  version_lt_trans : forall a b c,
    version_lt a b = true -> version_lt b c = true -> version_lt a c = true;
  version_lt_negtrans : forall a b c,
    version_lt a c = true -> version_lt a b = true \/ version_lt b c = true
}.

(** ** Fallible computations

    [result] is a monad in stdpp's sense, so that [x ← c; k] sequences two
    steps and stops at the first exception. *)

#[export] Instance result_ret : MRet result := fun A a => Ok a.
#[export] Instance result_bind : MBind result := fun A B k c =>
  match c with Ok a => k a | Raise e => Raise e end.

(** ** Python builtins [max] and [sorted] with a key *)

Section Builtins.
Context {A K : Type}.
Variable key : A -> result K.
Variable lt : K -> K -> bool.

(** The loop of [max(items, key=key)]: a later item replaces the current
    maximum only when its key is strictly greater. *)
Fixpoint max_loop (max_item : A) (max_key : K) (items : list A) : result A :=
  match items with
  | [] => Ok max_item
  | item :: rest =>
      k ← key item;
      if lt max_key k then max_loop item k rest
      else max_loop max_item max_key rest
  end.

(** [max(items, key=key)] on a non-empty list. *)
Definition py_max (first : A) (rest : list A) : result A :=
  k ← key first; max_loop first k rest.

(** [sorted(items, key=key, reverse=True)] computes the key of every item
    first and then sorts the items by their keys, in descending order and
    keeping the input order of items whose keys do not differ.  The sort
    works on the items paired with their keys.

    Stable insertion for a descending sort: [x], which came earlier in the
    input than everything in [l], goes before the first element whose key
    is not greater than its own. *)
Fixpoint insert_desc (x : A * K) (l : list (A * K)) : list (A * K) :=
  match l with
  | [] => [x]
  | y :: l' =>
      if lt (snd x) (snd y) then y :: insert_desc x l' else x :: y :: l'
  end.

Definition sort_desc (l : list (A * K)) : list (A * K) :=
  fold_right insert_desc [] l.

(** Descending order of a decorated list: no element has a smaller key
    than one that comes after it. *)
Definition descending (l : list (A * K)) : Prop :=
  StronglySorted (fun x y => lt (snd x) (snd y) = false) l.

End Builtins.

(** ** Constraint resolver *)

Section Resolver.
Context {P : Packaging}.

(** [version.parse(x)] *)
Definition parse (x : string) : result Version :=
  or_raise InvalidVersion (version_parse x).

(** [[v for v in versions if v in spec]] *)
Fixpoint matching (spec : SpecifierSet) (versions : list string)
  : result (list string) :=
  match versions with
  | [] => Ok []
  | v :: rest =>
      b ← or_raise InvalidVersion (SpecifierSet_contains spec v);
      m ← matching spec rest;
      mret (if (b : bool) then v :: m else m)
  end.

(** The versions a parsed constraint accepts. *)
Definition satisfies (spec : SpecifierSet) (v : string) : bool :=
  match SpecifierSet_contains spec v with
  | Some true => true
  | _ => false
  end.


(** The body of the [try] block. *)
Definition find_latest_matching_version_try
  (versions : list string) (constraint : string) : result string :=
  spec ← or_raise InvalidSpecifier (SpecifierSet_init constraint);
  matching_versions ← matching spec versions;
  match matching_versions with
  | [] => Ok EmptyString
  | v :: rest => py_max parse version_lt v rest
  end.

(** The [try] block under its handler [except Exception: return ""]. *)
Definition find_latest_matching_version
  (versions : list string) (constraint : string) : result string :=
  match find_latest_matching_version_try versions constraint with
  | Ok v => Ok v
  | Raise e => if is_Exception e then Ok "" else Raise e
  end.
End Resolver.

(** A list of version strings in descending order: every entry parses, and
    no entry is a smaller version than one that comes after it. *)
Definition sorted_descending {P : Packaging} (versions : list string) : Prop :=
  exists keys,
    Forall2 (fun v k => version_parse v = Some k) versions keys /\
    StronglySorted (fun a b => version_lt a b = false) keys.

(** ** Python data

    What [json] and [hcl2] hand to the script: [None], booleans, numbers,
    strings, lists and dictionaries.  Of a number the script can observe
    only whether it is zero (its truth value).  A dictionary is the list of
    its items in insertion order, with unique keys. *)

#[local] Unset Elimination Schemes.
Inductive pyval : Type :=
| PNone
| PBool (b : bool)
| PNum (zero : bool)
| PStr (s : string)
| PList (items : list pyval)
| PDict (items : list (string * pyval)).
#[local] Set Elimination Schemes.

Section Dict.
Context {V : Type}.

(** [d.get(k)], [None] when the key is absent. *)
Fixpoint dict_get (k : string) (d : list (string * V)) : option V :=
  match d with
  | [] => None
  | (k', v) :: d' => if String.eqb k' k then Some v else dict_get k d'
  end.

(** [d[k] = v]: an existing key keeps its position, a new key goes last. *)
Fixpoint dict_set (k : string) (v : V) (d : list (string * V))
  : list (string * V) :=
  match d with
  | [] => [(k, v)]
  | (k', v') :: d' =>
      if String.eqb k' k then (k', v) :: d' else (k', v') :: dict_set k v d'
  end.
End Dict.

(** Truth value of a Python object. *)
Definition py_truthy (v : pyval) : bool :=
  match v with
  | PNone => false
  | PBool b => b
  | PNum zero => negb zero
  | PStr s => Py.truthy s
  | PList l => match l with [] => false | _ => true end
  | PDict d => match d with [] => false | _ => true end
  end.

(** [a and b], [a or b], [not a]. *)
Definition py_and (a b : pyval) : pyval := if py_truthy a then b else a.
Definition py_or (a b : pyval) : pyval := if py_truthy a then a else b.
Definition py_not (a : pyval) : pyval := PBool (negb (py_truthy a)).

(** [data.get(k, default)]: only a dictionary has [get]. *)
Definition py_get (data : pyval) (k : string) (default : pyval) : result pyval :=
  match data with
  | PDict d => Ok (match dict_get k d with Some v => v | None => default end)
  | _ => Raise AttributeError
  end.

(** [data[k]] for a string [k]. *)
Definition py_getitem (data : pyval) (k : string) : result pyval :=
  match data with
  | PDict d => or_raise KeyError (dict_get k d)
  | _ => Raise TypeError
  end.

(** [data[0]] *)
Definition py_getitem0 (data : pyval) : result pyval :=
  match data with
  | PList (x :: _) => Ok x
  | PList [] => Raise IndexError
  | PStr (String c _) => Ok (PStr (String c EmptyString))
  | PStr EmptyString => Raise IndexError
  | PDict _ => Raise KeyError
  | _ => Raise TypeError
  end.

Fixpoint chars (s : string) : list pyval :=
  match s with
  | EmptyString => []
  | String c s' => PStr (String c EmptyString) :: chars s'
  end.

(** The items [for v in data] goes through. *)
Definition py_iter (data : pyval) : result (list pyval) :=
  match data with
  | PList l => Ok l
  | PDict d => Ok (map (fun kv => PStr (fst kv)) d)
  | PStr s => Ok (chars s)
  | _ => Raise TypeError
  end.

(** [data.rstrip('/')]: only a string has [rstrip]. *)
Definition py_rstrip_slash (data : pyval) : result string :=
  match data with
  | PStr s => Ok (Py.rstrip_char "/" s)
  | _ => Raise AttributeError
  end.

(** ** HCL configuration, as [hcl2.load] returns it

    A dictionary whose [module] entry, when present, is a list of one-entry
    dictionaries [{name: body}]; [body] maps attribute names to values. *)

Definition attrs : Type := list (string * pyval).
Definition block : Type := list (string * attrs).

Record Config : Type := {
  cfg_module : option (list block);
  cfg_other : list (string * pyval)
}.

Record ModuleDecl : Type := {
  name : string;
  source : string;
  constraint : pyval;
  file_path : string;
  module_info : ModuleInfo
}.




(** ** The world the script runs in *)

Inductive event : Type :=
| TokenReadFailed
| WellKnownFailed (host : string)
| FallbackPath
| InvalidSource (src : string)
| NoVersionsFound (mi : ModuleInfo)
| ModuleNotFound (mi : ModuleInfo) (url : string)
| VerifyHint
| FetchFailed (mi : ModuleInfo)
| Skipping (module_name path src : string)
| ParseFailed (path : string)
| BackupCreated (backup_path : string)
| Updated (module_name path new_version : string)
| UpdateFailed (path : string)
| NotADirectory (path : string)
| NoModules (path : string)
| TableHeader
| TableRule
| Row (update_flag module_name constr current latest_matching latest : string)
| Prompt (module_name target : string).

Definition headers : Type := list (string * string).

Record World : Type := {
  files : gmap string string;
  (** every write to a file so far, oldest first: path and new content *)
  fs_log : list (string * string);
  stdout : list event;
  stdin : list string;
  http_log : list (string * headers);
  clock_reads : nat
}.

Record Response : Type := {
  status_code : Z;
  (** [response.json()] *)
  json_body : result pyval
}.

(** [requests.get]; a raised exception is a network failure. *)
Class Requests : Type := {
  requests_get : string -> headers -> result Response
}.

(** [os], [open] and [datetime]: what is a directory, what [os.walk]
    lists (root and file names), which paths can be opened for reading and
    for writing, [os.path.expanduser], and the formatted time at the n-th
    reading of the clock. *)
Class OS : Type := {
  isdir : string -> bool;
  walk : string -> list (string * list string);
  readable : string -> bool;
  writable : string -> bool;
  expanduser : string -> string;
  strftime_now : nat -> string
}.

(** [json.load]; [None] is [JSONDecodeError]. [py_repr] is [str(v)] for a
    value that is not a string. *)
Class Json : Type := {
  json_loads : string -> option pyval;
  py_repr : pyval -> string
}.

(** [hcl2.load] and [hcl2.dump]; [None] is a raised exception. *)
Class Hcl2 : Type := {
  hcl2_load : string -> option Config;
  hcl2_dump : Config -> option string
}.

(** ** I/O computations: state passing over [World], with exceptions *)

Definition IO (A : Type) : Type := World -> result A * World.

#[export] Instance IO_ret : MRet IO := fun A a w => (Ok a, w).
#[export] Instance IO_bind : MBind IO := fun A B k c w =>
  match c w with
  | (Ok a, w') => k a w'
  | (Raise e, w') => (Raise e, w')
  end.

Definition lift {A} (r : result A) : IO A := fun w => (r, w).
Definition raise {A} (e : exn) : IO A := fun w => (Raise e, w).

(** [try: body / except <catches> as e: handler e] *)
Definition try_except {A} (body : IO A) (catches : exn -> bool)
  (handler : exn -> IO A) : IO A := fun w =>
  match body w with
  | (Ok a, w') => (Ok a, w')
  | (Raise e, w') => if catches e then handler e w' else (Raise e, w')
  end.

Definition print (e : event) : IO unit := fun w =>
  (Ok tt,
   {| files := files w; fs_log := fs_log w; stdout := stdout w ++ [e];
      stdin := stdin w; http_log := http_log w;
      clock_reads := clock_reads w |}).

(** [for x in items: f x] *)
Fixpoint forM_ {A} (f : A -> IO unit) (items : list A) : IO unit :=
  match items with
  | [] => mret tt
  | x :: rest => f x ;; forM_ f rest
  end.

(** [input(prompt)] *)
Definition input (prompt : event) : IO string := fun w =>
  let out := stdout w ++ [prompt] in
  match stdin w with
  | [] => (Raise EOFError,
           {| files := files w; fs_log := fs_log w; stdout := out;
              stdin := []; http_log := http_log w;
              clock_reads := clock_reads w |})
  | line :: rest =>
      (Ok line,
       {| files := files w; fs_log := fs_log w; stdout := out;
          stdin := rest; http_log := http_log w;
          clock_reads := clock_reads w |})
  end.

Definition set_file (path content : string) (w : World) : World :=
  {| files := <[path := content]> (files w);
     fs_log := fs_log w ++ [(path, content)]; stdout := stdout w;
     stdin := stdin w; http_log := http_log w; clock_reads := clock_reads w |}.

(** A computation leaves a component of the world as it found it. *)
Definition preserves {X A} (proj : World -> X) (c : IO A) : Prop :=
  forall w, proj (snd (c w)) = proj w.

(** The components that printing and reading the keyboard do not touch. *)
Definition silent {X} (proj : World -> X) : Prop :=
  forall w out keys,
    proj {| files := files w; fs_log := fs_log w; stdout := out;
            stdin := keys; http_log := http_log w;
            clock_reads := clock_reads w |} = proj w.


(** ** The script *)

Section Script.
Context {P : Packaging} {R : Requests} {O : OS} {J : Json} {H : Hcl2}.

(** [open(path, 'r')] followed by [read()]. *)
Definition open_read (path : string) : IO string := fun w =>
  match files w !! path with
  | None => (Raise FileNotFoundError, w)
  | Some content =>
      if readable path then (Ok content, w) else (Raise PermissionError, w)
  end.

(** [open(path, 'w')]: creates the file or truncates it. *)
Definition open_write (path : string) : IO unit := fun w =>
  if writable path then (Ok tt, set_file path "" w)
  else (Raise PermissionError, w).

(** [f.write(content)] on a file just opened with ['w']. *)
Definition write (path content : string) : IO unit := fun w =>
  (Ok tt, set_file path content w).

(** [datetime.now().strftime('%Y%m%d_%H%M%S')] *)
Definition now : IO string := fun w =>
  (Ok (strftime_now (clock_reads w)),
   {| files := files w; fs_log := fs_log w; stdout := stdout w;
      stdin := stdin w; http_log := http_log w;
      clock_reads := S (clock_reads w) |}).

(** [requests.get(url, headers=headers)]; every request is recorded. *)
Definition http_get (url : string) (hs : headers) : IO Response := fun w =>
  (requests_get url hs,
   {| files := files w; fs_log := fs_log w; stdout := stdout w;
      stdin := stdin w; http_log := http_log w ++ [(url, hs)];
      clock_reads := clock_reads w |}).

(** [response.raise_for_status()] *)
Definition raise_for_status (response : Response) : result unit :=
  if (400 <=? status_code response) && (status_code response <? 600)
  then Raise (HTTPError (status_code response)) else Ok tt.

(** An f-string field [{v}]. *)
Definition format (v : pyval) : string :=
  match v with PStr s => s | _ => py_repr v end.

Definition credentials_file : string := "~/.terraform.d/credentials.tfrc.json".

Definition get_terraform_token : IO pyval :=
  try_except
    (content ← open_read (expanduser credentials_file);
     data ← lift (or_raise JSONDecodeError (json_loads content));
     credentials ← lift (py_getitem data "credentials");
     entry ← lift (py_getitem credentials "app.terraform.io");
     lift (py_getitem entry "token"))
    (fun e => match e with
              | FileNotFoundError | KeyError | JSONDecodeError => true
              | _ => false
              end)
    (fun _ => print TokenReadFailed ;; raise (SystemExit 1)).

Definition well_known_url (host : string) : string :=
  "https://" +:+ host +:+ "/.well-known/terraform.json".

Definition get_modules_path (host : string) : IO string :=
  try_except
    (response ← http_get (well_known_url host) [];
     lift (raise_for_status response) ;;
     data ← lift (json_body response);
     modules_path ← lift (py_get data "modules.v1"
                            (PStr "/api/registry/v1/modules/"));
     lift (py_rstrip_slash modules_path))
    is_RequestException
    (fun _ => print (WellKnownFailed host) ;; print FallbackPath ;;
              mret "/api/registry/v1/modules").

Definition is_private (mi : ModuleInfo) : bool :=
  match registry mi with private => true | public => false end.

Definition coordinates (mi : ModuleInfo) : string :=
  namespace mi +:+ "/" +:+ module mi +:+ "/" +:+ provider mi.

Definition private_url (mi : ModuleInfo) (modules_path : string) : string :=
  "https://" +:+ hostname mi +:+ modules_path +:+ "/" +:+ coordinates mi
    +:+ "/versions".

Definition public_url (mi : ModuleInfo) : string :=
  "https://registry.terraform.io/v1/modules/" +:+ coordinates mi
    +:+ "/versions".

(** The first statement of [get_module_versions]: the URL and the headers
    of the request. *)
Definition versions_request (mi : ModuleInfo) (token : pyval)
  : IO (string * headers) :=
  if is_private mi && py_truthy token then
    modules_path ← get_modules_path (hostname mi);
    mret (private_url mi modules_path,
          [("Authorization", "Bearer " +:+ format token)])
  else
    mret (public_url mi, []).

(** One entry of the response paired with the key [sorted] computes for it;
    [version.parse] raises on a value that is not a string. *)
Definition version_key (v : pyval) : result (string * Version) :=
  match v with
  | PStr s => k ← parse s; mret (s, k)
  | _ => Raise TypeError
  end.

(** The [try] statement of [get_module_versions]: the request, the walk
    through the JSON document, the sort, and the two handlers. *)
Definition fetch_versions (mi : ModuleInfo) (url : string) (hs : headers)
  : IO (list string) :=
  try_except
    (response ← http_get url hs;
     lift (raise_for_status response) ;;
     data ← lift (json_body response);
     modules ← lift (py_get data "modules" (PList [PDict []]));
     first ← lift (py_getitem0 modules);
     listed ← lift (py_get first "versions" (PList []));
     entries ← lift (py_iter listed);
     versions ← lift (mapM (fun v => py_getitem v "version") entries);
     (if versions is [] then print (NoVersionsFound mi) else mret tt) ;;
     decorated ← lift (mapM version_key versions);
     mret (map fst (sort_desc version_lt decorated)))
    is_RequestException
    (fun e =>
       match e with
       | HTTPError status =>
           (if status =? 404
            then print (ModuleNotFound mi url) ;; print VerifyHint
            else print (FetchFailed mi)) ;;
           mret []
       | _ => print (FetchFailed mi) ;; mret []
       end).

Definition get_module_versions (mi : ModuleInfo) (token : pyval)
  : IO (list string) :=
  '(url, hs) ← versions_request mi token;
  fetch_versions mi url hs.

(** [os.path.join(root, file)] *)
Definition path_join (root file : string) : string :=
  if Py.startswith "/" file then file
  else if String.eqb root "" || Py.endswith "/" root then root +:+ file
  else root +:+ "/" +:+ file.

(** The two inner loops of [scan_terraform_modules] over one parsed file:
    the declarations appended to [modules], the lines printed, and the
    exception that ended the loops early, if any.  A declaration already
    appended stays in [modules] when a later one raises. *)
Fixpoint scan_items (path : string) (items : block)
  : list ModuleDecl * list event * option exn :=
  match items with
  | [] => ([], [], None)
  | (module_name, module_data) :: rest =>
      let src := default (PStr "") (dict_get "source" module_data) in
      let version_constraint :=
        default (PStr "") (dict_get "version" module_data) in
      match src with
      | PStr s =>
          let '(found, out, ex) := scan_items path rest in
          match parse_module_source s with
          | Some mi =>
              ({| name := module_name; source := s;
                  constraint := version_constraint; file_path := path;
                  module_info := mi |} :: found, out, ex)
          | None =>
              (found, InvalidSource s :: Skipping module_name path s :: out, ex)
          end
      | _ => ([], [], Some AttributeError)
      end
  end.

Fixpoint scan_blocks (path : string) (blocks : list block)
  : list ModuleDecl * list event * option exn :=
  match blocks with
  | [] => ([], [], None)
  | b :: rest =>
      match scan_items path b with
      | (found, out, Some e) => (found, out, Some e)
      | (found, out, None) =>
          let '(found', out', ex) := scan_blocks path rest in
          (found ++ found', out ++ out', ex)
      end
  end.

Definition scan_config (path : string) (config : Config)
  : list ModuleDecl * list event * option exn :=
  scan_blocks path (default [] (cfg_module config)).

(** One [.tf] file: the [try] block around [open] and [hcl2.load] and its
    handler [except Exception]. *)
Definition scan_file (path : string) : IO (list ModuleDecl) :=
  try_except
    (content ← open_read path;
     config ← lift (or_raise HclError (hcl2_load content));
     let '(found, out, ex) := scan_config path config in
     forM_ print out ;;
     match ex with
     | Some _ => print (ParseFailed path)
     | None => mret tt
     end ;;
     mret found)
    is_Exception
    (fun _ => print (ParseFailed path) ;; mret []).

Definition tf_files (listing : list (string * list string)) : list string :=
  flat_map (fun '(root, names) =>
              map (path_join root) (List.filter (Py.endswith ".tf") names))
           listing.

(** The walk over the tree.  [scan_file] raises nothing and [walk] is a
    listing, so the outer handler of the source, which prints that the scan
    of the directory failed, has nothing to catch. *)
Definition scan_terraform_modules (path : string) : IO (list ModuleDecl) :=
  found ← mapM scan_file (tf_files (walk path));
  mret (concat found).

(** [module[module_name]['version'] = new_version] on one element of
    [config['module']], when [module_name in module]; the element is left
    as it is otherwise. *)
Definition set_block_version (module_name new_version : string) (b : block)
  : block :=
  match dict_get module_name b with
  | Some body =>
      dict_set module_name (dict_set "version" (PStr new_version) body) b
  | None => b
  end.

(** The loop of [update_module_version] over [config.get('module', [])]. *)
Definition set_module_version (module_name new_version : string)
  (config : Config) : Config :=
  {| cfg_module :=
       option_map (map (set_block_version module_name new_version))
                  (cfg_module config);
     cfg_other := cfg_other config |}.

Definition backup_path_of (path stamp : string) : string :=
  path +:+ ".backup_" +:+ stamp.

(** The first half of the [try] block of [update_module_version]:
    "Create a backup". *)
Definition create_backup (path : string) : IO unit :=
  stamp ← now;
  let backup_path := backup_path_of path stamp in
  content ← open_read path;
  open_write backup_path ;;
  write backup_path content ;;
  print (BackupCreated backup_path).

(** The second half: "Parse and update the file". *)
Definition parse_and_update (path module_name new_version : string)
  : IO unit :=
  text ← open_read path;
  config ← lift (or_raise HclError (hcl2_load text));
  let config' := set_module_version module_name new_version config in
  open_write path ;;
  dumped ← lift (or_raise HclError (hcl2_dump config'));
  write path dumped ;;
  print (Updated module_name path new_version).

Definition update_module_version (path module_name new_version : string)
  : IO unit :=
  try_except
    (create_backup path ;;
     parse_and_update path module_name new_version)
    is_Exception
    (fun _ => print (UpdateFailed path)).

Record Args : Type := {
  use_token : bool;
  path : string;
  update : bool;
  all : bool
}.

(** [constraint.replace('=', '').strip() if constraint.startswith('=')
    else constraint] *)
Definition current_version_of (c : string) : string :=
  if Py.startswith "=" c then Py.strip (Py.remove_all "=" c) else c.

(** [latest_version and (not current_version or (latest_version !=
    current_version and (not latest_matching or latest_matching !=
    current_version)))] *)
Definition update_possible (latest_version current_version latest_matching : string)
  : pyval :=
  py_and (PStr latest_version)
    (py_or (py_not (PStr current_version))
       (py_and (PBool (negb (String.eqb latest_version current_version)))
          (py_or (py_not (PStr latest_matching))
             (PBool (negb (String.eqb latest_matching current_version)))))).

(** ["(Y)" if update_possible else ""] *)
Definition update_flag (latest_version current_version latest_matching : string)
  : string :=
  if py_truthy (update_possible latest_version current_version latest_matching)
  then "(Y)" else "".


(** [latest_matching if latest_matching else latest_version], then the
    update when that is not empty. *)
Definition apply_update (m : ModuleDecl) (latest_matching latest_version : string)
  : IO unit :=
  let new_version :=
    if Py.truthy latest_matching then latest_matching else latest_version in
  if Py.truthy new_version
  then update_module_version (file_path m) (name m) new_version
  else mret tt.

(** The body of the loop of [main] over the scanned declarations. *)
Definition process_module (args : Args) (token : pyval) (m : ModuleDecl)
  : IO unit :=
  versions ← get_module_versions (module_info m) token;
  let latest_version := match versions with v :: _ => v | [] => "" end in
  match constraint m with
  | PStr c =>
      latest_matching ←
        (if Py.truthy c then lift (find_latest_matching_version versions c)
         else mret "");
      let current_version := current_version_of c in
      let possible :=
        update_possible latest_version current_version latest_matching in
      print (Row (update_flag latest_version current_version latest_matching)
                 (name m) c current_version latest_matching latest_version) ;;
      if py_truthy possible && (all args || update args) then
        if all args then apply_update m latest_matching latest_version
        else
          answer ← input (Prompt (name m)
                            (if Py.truthy latest_matching
                             then latest_matching else latest_version));
          if String.eqb (Py.lower (Py.strip answer)) "y"
          then apply_update m latest_matching latest_version
          else mret tt
      else mret tt
  | _ =>
      (* [startswith] on a value that is not a string *)
      raise AttributeError
  end.

Definition main (args : Args) : IO unit :=
  if negb (isdir (path args)) then
    print (NotADirectory (path args)) ;; raise (SystemExit 1)
  else
    token ← (if use_token args then get_terraform_token else mret PNone);
    modules ← scan_terraform_modules (path args);
    if modules is [] then print (NoModules (path args))
    else
      print TableHeader ;; print TableRule ;;
      forM_ (process_module args token) modules.

(** The exit status of the process: an uncaught exception ends it with a
    traceback and status 1. *)
Definition exit_status {A} (r : result A) : Z :=
  match r with
  | Ok _ => 0
  | Raise (SystemExit code) => code
  | Raise _ => 1
  end.

End Script.

(** ** A fragment of [packaging] that computes

    Versions made of digits and dots only (the fast path of
    [Version.__init__]: a release segment, no epoch, pre-, post- or
    dev-release, no local label) and constraints whose clauses are one of
    [==], [!=], [<=], [>=], [<], [>] followed by such a version.  On these
    inputs the definitions follow the library.  Everything outside the
    fragment is answered as not a version, or not a specifier; for the
    operators [~=] and [===] and for versions with letters this is narrower
    than the library. *)

Module Pep440.

Definition digit (c : ascii) : option N :=
  let n := N_of_ascii c in
  if ((48 <=? n) && (n <=? 57))%N then Some (n - 48)%N else None.

Fixpoint digits (acc : N) (s : string) : option N :=
  match s with
  | EmptyString => Some acc
  | String c s' =>
      match digit c with
      | Some d => digits (acc * 10 + d)%N s'
      | None => None
      end
  end.

(** [int(part)] for a part made of digits; the empty part is an error. *)
Definition int_of (part : string) : option N :=
  match part with
  | EmptyString => None
  | _ => digits 0%N part
  end.

(** [tuple(map(int, version.split(".")))] *)
Definition release_of (version : string) : option (list N) :=
  mapM int_of (Py.split "." version).

(** The comparison key of a release: trailing zeros do not count. *)
Fixpoint strip_zeros (release : list N) : list N :=
  match release with
  | [] => []
  | x :: rest =>
      match strip_zeros rest with
      | [] => if (x =? 0)%N then [] else [x]
      | r => x :: r
      end
  end.

(** Tuple comparison. *)
Fixpoint tuple_lt (a b : list N) : bool :=
  match a, b with
  | _, [] => false
  | [], _ :: _ => true
  | x :: a', y :: b' => (x <? y)%N || ((x =? y)%N && tuple_lt a' b')
  end.

Definition release_lt (a b : list N) : bool :=
  tuple_lt (strip_zeros a) (strip_zeros b).

Inductive operator : Type := EQ | NE | LE | GE | LT | GT.

Definition clause : Type := (operator * list N)%type.

(** One clause, already stripped: operator, optional blanks, version. *)
Definition clause_of (s : string) : option clause :=
  let with_op (op : operator) (rest : string) : option clause :=
    release ← release_of (Py.lstrip rest); Some (op, release) in
  match s with
  | String "=" (String "=" rest) => with_op EQ rest
  | String "!" (String "=" rest) => with_op NE rest
  | String "<" (String "=" rest) => with_op LE rest
  | String ">" (String "=" rest) => with_op GE rest
  | String "<" rest => with_op LT rest
  | String ">" rest => with_op GT rest
  | _ => None
  end.

(** [[s.strip() for s in specifiers.split(",") if s.strip()]], each parsed. *)
Definition specifier_set_of (specifiers : string) : option (list clause) :=
  mapM clause_of
    (List.filter Py.truthy (map Py.strip (Py.split "," specifiers))).

Definition clause_holds (v : list N) (c : clause) : bool :=
  let '(op, spec) := c in
  match op with
  | EQ => negb (release_lt v spec) && negb (release_lt spec v)
  | NE => release_lt v spec || release_lt spec v
  | LE => negb (release_lt spec v)
  | GE => negb (release_lt v spec)
  | LT => release_lt v spec
  | GT => release_lt spec v
  end.

(** [item in spec] as packaging 22 to 25 have it: the item is parsed first,
    and a string that is not a version raises [InvalidVersion]. *)
Definition contains_raising (spec : list clause) (item : string) : option bool :=
  v ← release_of item; Some (forallb (clause_holds v) spec).

(** [item in spec] as packaging 26 has it: a string that is not a version
    passes no clause, so it is in the empty set only. *)
Definition contains_excluding (spec : list clause) (item : string) : option bool :=
  match release_of item with
  | Some v => Some (forallb (clause_holds v) spec)
  | None => Some (match spec with [] => true | _ :: _ => false end)
  end.

Definition packaging_25 : Packaging := {|
  Version := list N;
  version_lt := release_lt;
  version_parse := release_of;
  SpecifierSet := list clause;
  SpecifierSet_init := specifier_set_of;
  SpecifierSet_contains := contains_raising
|}.

Definition packaging_26 : Packaging := {|
  Version := list N;
  version_lt := release_lt;
  version_parse := release_of;
  SpecifierSet := list clause;
  SpecifierSet_init := specifier_set_of;
  SpecifierSet_contains := contains_excluding
|}.

End Pep440.

(** ** Test doubles

    A registry that answers every request with one JSON document, a file
    system in which everything can be read and written, and a configuration
    codec that knows one file. *)

Module Fixture.

Definition registry_answering (body : pyval) : Requests := {|
  requests_get := fun _ _ => Ok {| status_code := 200; json_body := Ok body |}
|}.

Definition os : OS := {|
  isdir := fun _ => true;
  walk := fun root => [(root, ["main.tf"; "README.md"])];
  readable := fun _ => true;
  writable := fun _ => true;
  expanduser := fun p => p;
  strftime_now := fun _ => "20240101_120000"
|}.

Definition json : Json := {|
  json_loads := fun _ => None;
  py_repr := fun _ => "?"
|}.

Definition main_tf : string := "module consul { source = hashicorp/consul/aws }".

Definition consul_block (version : list (string * pyval)) : block :=
  [("consul", ("source", PStr "hashicorp/consul/aws") :: version)].

Definition main_config : Config := {|
  cfg_module := Some [consul_block [("version", PStr ">= 1.0.0")]];
  cfg_other := [("terraform", PDict [])]
|}.

Definition render_attr (kv : string * pyval) : string :=
  match snd kv with
  | PStr s => fst kv +:+ "=" +:+ s +:+ ";"
  | _ => fst kv +:+ ";"
  end.

Definition render_block (b : block) : string :=
  String.concat ""
    (map (fun '(module_name, body) =>
            "module " +:+ module_name +:+ " {"
              +:+ String.concat "" (map render_attr body) +:+ "}")
         b).

Definition hcl2 : Hcl2 := {|
  hcl2_load := fun text =>
    if String.eqb text main_tf then Some main_config else None;
  hcl2_dump := fun config =>
    Some (String.concat "" (map render_block (default [] (cfg_module config))))
|}.

Definition world : World := {|
  files := {[ "./main.tf" := main_tf ]};
  fs_log := [];
  stdout := [];
  stdin := [];
  http_log := [];
  clock_reads := 0
|}.

(** A registry that answers every request with an HTTP status and no
    document. *)
Definition registry_failing (status : Z) : Requests := {|
  requests_get := fun _ _ =>
    Ok {| status_code := status; json_body := Raise JSONDecodeError |}
|}.

(** A response with an empty [modules] list. *)
Definition empty_modules : pyval := PDict [("modules", PList [])].

Definition version_entry (v : string) : pyval := PDict [("version", PStr v)].

(** A response that lists the given versions. *)
Definition listing (versions : list string) : pyval :=
  PDict [("modules", PList [PDict [("versions", PList (map version_entry versions))]])].

Definition report_only : Args :=
  {| use_token := false; path := "."; update := false; all := false |}.

Definition private_module : ModuleInfo := {|
  registry := private;
  hostname := "example.com";
  namespace := "org";
  module := "mod";
  provider := "aws"
|}.

End Fixture.

(** ** Vocabulary of the further properties *)

(** A field of a reference that holds no slash. *)
Definition slash_free (s : string) : bool := negb (Py.contains "/" s).

(** A declaration as the scan builds it: its reference is the one its
    source parses to. *)
Definition decl_ok (m : ModuleDecl) : Prop :=
  parse_module_source (source m) = Some (module_info m).


(** A string that does not start with white space. *)
Definition no_leading_space (s : string) : Prop :=
  match s with
  | String c _ => Py.isspace c = false
  | EmptyString => True
  end.

(** A home directory that holds a credential file, with the JSON reader
    that knows its text. *)
Module Credentials.

Definition text : string := "credentials.tfrc.json of the operator".

Definition document : pyval :=
  PDict [("credentials",
          PDict [("app.terraform.io", PDict [("token", PStr "s3cr3t")])])].

Definition json : Json := {|
  json_loads := fun s => if String.eqb s text then Some document else None;
  py_repr := fun _ => "?"
|}.

Definition world : World := {|
  files := {[ "~/.terraform.d/credentials.tfrc.json" := text ]};
  fs_log := [];
  stdout := [];
  stdin := [];
  http_log := [];
  clock_reads := 0
|}.

End Credentials.

(** ** Invariants of a run *)

(** A computation keeps an invariant of the world, whether it returns or
    raises, and what it returns satisfies [post]. *)
Definition maintains {A} (I : World -> Prop) (c : IO A) (post : A -> Prop)
  : Prop :=
  forall w, I w -> I (snd (c w)) /\ forall a, fst (c w) = Ok a -> post a.

(** Since the world [w0] no file was written, every line printed satisfies
    [Qe], and every line still waiting on the keyboard satisfies [Qk]. *)
Definition nothing_written (w0 : World) (Qe : event -> Prop)
  (Qk : string -> Prop) (w : World) : Prop :=
  files w = files w0 /\ fs_log w = fs_log w0 /\
  (exists out, stdout w = stdout w0 ++ out /\ Forall Qe out) /\
  Forall Qk (stdin w).

(** The lines of the loop of [main] and of an update. *)
Definition is_driver_line (e : event) : bool :=
  match e with
  | Row _ _ _ _ _ _ | Prompt _ _
  | BackupCreated _ | Updated _ _ _ | UpdateFailed _ => true
  | _ => false
  end.

(** What a run that updates nothing prints: no line of an update, and a
    prompt only when it is [asking]. *)
Definition report_line (asking : bool) (e : event) : Prop :=
  match e with
  | BackupCreated _ | Updated _ _ _ | UpdateFailed _ => False
  | Prompt _ _ => asking = true
  | _ => True
  end.

(** What a run prints that learns nothing from the registry: rows with no
    flag and no version of the registry, no prompt, no line of an update. *)
Definition blank_line (e : event) : Prop :=
  match e with
  | Row flag _ _ _ latest_matching latest =>
      flag = "" /\ latest_matching = "" /\ latest = ""
  | BackupCreated _ | Updated _ _ _ | UpdateFailed _ | Prompt _ _ => False
  | _ => True
  end.

(** An answer to the prompt that is not a yes. *)
Definition declines (line : string) : Prop :=
  Py.lower (Py.strip line) <> "y".

(** A request that brings no document: it raises, or the status of the
    answer is an error. *)
Definition request_fails `{Requests} (url : string) (hs : headers) : Prop :=
  match requests_get url hs with
  | Raise _ => True
  | Ok r => 400 <= status_code r < 600
  end.

(** The tree of [Fixture.world] with lines waiting on the keyboard, and a
    run that asks before it updates. *)
Module Keyboard.

Definition world (lines : list string) : World := {|
  files := files Fixture.world;
  fs_log := [];
  stdout := [];
  stdin := lines;
  http_log := [];
  clock_reads := 0
|}.

Definition asking : Args :=
  {| use_token := false; path := "."; update := true; all := false |}.

Definition updating_all : Args :=
  {| use_token := false; path := "."; update := false; all := true |}.

End Keyboard.

(** A declaration as the scan of the file [path] may return it for the
    parsed [config]: it carries that path and the name of one entry of one
    module block, the source and the version of that entry, or the empty
    string where the entry has none, and the reference its source parses
    to. *)
Definition declared_in (path : string) (config : Config) (m : ModuleDecl)
  : Prop :=
  file_path m = path /\ decl_ok m /\
  exists blocks b body,
    cfg_module config = Some blocks /\ In b blocks /\ In (name m, body) b /\
    default (PStr "") (dict_get "source" body) = PStr (source m) /\
    constraint m = default (PStr "") (dict_get "version" body).

(** Two worlds that differ at most in what was printed. *)
Definition only_printed (w w' : World) : Prop :=
  files w' = files w /\ fs_log w' = fs_log w /\ stdin w' = stdin w /\
  http_log w' = http_log w /\ clock_reads w' = clock_reads w.

(** The declaration [m'] is [m] after an update of [module_name] to
    [new_version]: the same, but for the constraint when it carries that
    name. *)
Definition reversioned (module_name new_version : string)
  (m m' : ModuleDecl) : Prop :=
  name m' = name m /\ source m' = source m /\ file_path m' = file_path m /\
  module_info m' = module_info m /\
  constraint m' = if String.eqb (name m) module_name
                  then PStr new_version else constraint m.

(** The keys of a dict are distinct. *)
Definition distinct_keys {V} (d : list (string * V)) : Prop :=
  NoDup (map fst d).

(** An [hcl2] that reads back what it wrote when [consul] of
    [Fixture.main_config] was updated to [version]. *)
Module Reparsing.

Definition updated (version : string) : Config :=
  set_module_version "consul" version Fixture.main_config.

Definition dump (config : Config) : string :=
  String.concat "" (map Fixture.render_block (default [] (cfg_module config))).

Definition hcl2 (version : string) : Hcl2 := {|
  hcl2_load := fun text =>
    if String.eqb text Fixture.main_tf then Some Fixture.main_config
    else if String.eqb text (dump (updated version)) then Some (updated version)
    else None;
  hcl2_dump := fun config => Some (dump config)
|}.

End Reparsing.

(** ** The text of the table *)

(** A field [{s:<n}] of an f-string: [s] with blanks on its right up to
    the width [n]; a longer [s] is kept whole. *)
Definition ljust (n : nat) (s : string) : string :=
  s +:+ string_of_list_ascii (repeat " "%char (n - String.length s)).

(** The two lines printed above the rows. *)
Definition table_header : string :=
  "| UPDATE? | NAME                     | CONSTRAINT | VERSION  | LATEST MATCHING | LATEST |".

Definition table_rule : string :=
  "|---------|--------------------------|------------|----------|-----------------|--------|".

(** The line of a row. *)
Definition render_row (flag module_name constr current latest_matching latest
  : string) : string :=
  "| " +:+ ljust 7 flag +:+ " | " +:+ ljust 24 module_name +:+ " | "
    +:+ ljust 10 constr +:+ " | " +:+ ljust 8 current +:+ " | "
    +:+ ljust 15 latest_matching +:+ " | " +:+ ljust 6 latest +:+ " |".

(** * Properties *)

(** ** The source locator *)

Lemma split_not_nil sep s : Py.split sep s <> [].
Proof.
  destruct s as [|c s]; simpl; [discriminate|].
  destruct (Ascii.eqb c sep); [discriminate|].
  destruct (Py.split sep s); discriminate.
Qed.

Lemma scan_items_skips path module_name body rest src :
  default (PStr "") (dict_get "source" body) = PStr src ->
  parse_module_source src = None ->
  scan_items path ((module_name, body) :: rest) =
    let '(found, out, ex) := scan_items path rest in
    (found, InvalidSource src :: Skipping module_name path src :: out, ex).
Proof.
  intros Hsrc Hnone. simpl. rewrite Hsrc.
  destruct (scan_items path rest) as [[found out] ex].
  now rewrite Hnone.
Qed.

(** C3. [parse_module_source] splits the source at the slashes.  With at
    least four segments and a dot in the first one the reference is private:
    host, namespace, module and provider are segments 0 to 3, and further
    segments are ignored.  Otherwise, with at least three segments, it is
    public: namespace, module and provider are segments 0 to 2 and the host
    is registry.terraform.io.  Otherwise there is no reference, and the scan
    skips the declaration (it prints why) and goes on with the remaining
    declarations of the file. *)
Theorem parse_module_source_classifies (src : string) :
  let parts := Py.split "/" src in
  let dotted := Py.contains "." (nth 0 parts "") in
  ((4 <= length parts)%nat /\ dotted = true /\
   parse_module_source src =
     Some {| registry := private; hostname := nth 0 parts "";
             namespace := nth 1 parts ""; module := nth 2 parts "";
             provider := nth 3 parts "" |})
  \/
  (~ ((4 <= length parts)%nat /\ dotted = true) /\ (3 <= length parts)%nat /\
   parse_module_source src =
     Some {| registry := public; hostname := "registry.terraform.io";
             namespace := nth 0 parts ""; module := nth 1 parts "";
             provider := nth 2 parts "" |})
  \/
  ((length parts < 3)%nat /\ parse_module_source src = None /\
   forall path module_name body rest,
     default (PStr "") (dict_get "source" body) = PStr src ->
     scan_items path ((module_name, body) :: rest) =
       let '(found, out, ex) := scan_items path rest in
       (found, InvalidSource src :: Skipping module_name path src :: out, ex)).
Proof.
  intros parts dotted.
  assert (Hdef : parse_module_source src =
    if (4 <=? length parts)%nat && dotted then
      Some {| registry := private; hostname := nth 0 parts "";
              namespace := nth 1 parts ""; module := nth 2 parts "";
              provider := nth 3 parts "" |}
    else if (3 <=? length parts)%nat then
      Some {| registry := public; hostname := "registry.terraform.io";
              namespace := nth 0 parts ""; module := nth 1 parts "";
              provider := nth 2 parts "" |}
    else None) by reflexivity.
  generalize Hdef. rewrite Hdef at 2 3 4. clear Hdef.
  destruct (Nat.leb_spec 4 (length parts)) as [H4|H4];
    destruct (Nat.leb_spec 3 (length parts)) as [H3|H3];
    destruct dotted eqn:Hdot; cbn [andb]; intros Hdef; try lia.
  - left. repeat split; auto.
  - right; left. repeat split; auto. intros [_ ?]; discriminate.
  - right; left. repeat split; auto. intros [? _]; lia.
  - right; left. repeat split; auto. intros [? _]; lia.
  - right; right. repeat split; auto.
    intros. now apply scan_items_skips.
  - right; right. repeat split; auto.
    intros. now apply scan_items_skips.
Qed.

Lemma parse_module_source_classifies_witness :
  parse_module_source "./modules" = None /\
  scan_items "main.tf"
    [("local", [("source", PStr "./modules")]);
     ("consul", [("source", PStr "hashicorp/consul/aws")])] =
  ([{| name := "consul"; source := "hashicorp/consul/aws";
       constraint := PStr ""; file_path := "main.tf";
       module_info := {| registry := public;
                         hostname := "registry.terraform.io";
                         namespace := "hashicorp"; module := "consul";
                         provider := "aws" |} |}],
   [InvalidSource "./modules"; Skipping "local" "main.tf" "./modules"],
   None).
Proof.
  destruct (parse_module_source_classifies "./modules")
    as [(_ & _ & Hp) | [(_ & _ & Hp) | (_ & Hnone & Hskip)]];
    try discriminate Hp.
  split; [exact Hnone|].
  rewrite Hskip by reflexivity. reflexivity.
Defined.

(** ** The report row *)

Lemma truthy_cases (s : string) :
  (s = "" /\ Py.truthy s = false) \/ (s <> "" /\ Py.truthy s = true).
Proof. destruct s; [left | right]; split; auto; discriminate. Qed.

(** The flag against the three version columns of a row. *)
Lemma update_flag_cases (latest_version current_version latest_matching : string) :
  let offered :=
    latest_version <> "" /\
    (current_version = "" \/
     (latest_version <> current_version /\
      (latest_matching = "" \/ latest_matching <> current_version))) in
  (update_flag latest_version current_version latest_matching = "(Y)"
     <-> offered) /\
  (update_flag latest_version current_version latest_matching = ""
     <-> ~ offered) /\
  (py_truthy (update_possible latest_version current_version latest_matching)
     = true <-> offered).
Proof.
  intros offered. unfold offered; clear offered.
  unfold update_flag, update_possible, py_and, py_or, py_not.
  cbn [py_truthy].
  destruct (truthy_cases latest_version) as [[Hl Tl]|[Hl Tl]],
           (truthy_cases current_version) as [[Hc Tc]|[Hc Tc]],
           (truthy_cases latest_matching) as [[Hm Tm]|[Hm Tm]],
           (String.eqb_spec latest_version current_version) as [Hlc|Hlc],
           (String.eqb_spec latest_matching current_version) as [Hmc|Hmc];
    rewrite ?Tl, ?Tc, ?Tm; cbn; rewrite ?Tl, ?Tc, ?Tm;
    repeat split; intros; try discriminate; try tauto;
    try congruence; try (exfalso; tauto).
Qed.

(** ** The current version *)

(** C6. On a pinned constraint that carries a second clause,
    [current_version_of] removes the [=] of the later operator too: the
    clause [<= 2.0] comes out as [< 2.0]. *)
Theorem current_version_of_removes_every_equals_sign :
  let c := "= 1.0, <= 2.0" in
  Py.startswith "=" c = true /\
  current_version_of c = "1.0, < 2.0" /\
  current_version_of c <> "1.0, <= 2.0".
Proof.
  cbv zeta. split; [reflexivity|]. split; [reflexivity|].
  vm_compute. discriminate.
Qed.

Lemma remove_all_absent (c : ascii) (s : string) :
  Py.contains c s = false -> Py.remove_all c s = s.
Proof.
  induction s as [|d s IH]; simpl; [reflexivity|].
  destruct (Ascii.eqb d c); simpl; [discriminate|].
  intros H. now rewrite IH.
Qed.

(** On a plain pin, an [=] followed by text without another [=], the
    operator and the surrounding blanks go and the rest stays; a
    constraint that does not start with [=] is kept as it is. *)
Lemma current_version_of_pin (rest : string) :
  Py.contains "=" rest = false ->
  current_version_of (String "=" rest) = Py.strip rest.
Proof.
  intros H. unfold current_version_of. simpl.
  now rewrite remove_all_absent.
Qed.

Lemma current_version_of_range (c : string) :
  Py.startswith "=" c = false -> current_version_of c = c.
Proof. intros H. unfold current_version_of. now rewrite H. Qed.

(** ** [max] and [sorted] *)

Section BuiltinsFacts.
Context {A K : Type}.
Variable key : A -> result K.
Variable lt : K -> K -> bool.
Hypothesis lt_irrefl : forall a, lt a a = false.
Hypothesis lt_trans : forall a b c, lt a b = true -> lt b c = true -> lt a c = true.
Hypothesis lt_negtrans : forall a b c, lt a c = true -> lt a b = true \/ lt b c = true.

Lemma lt_false_trans a b c : lt a b = false -> lt b c = false -> lt a c = false.
Proof.
  intros Hab Hbc. destruct (lt a c) eqn:Hac; [|reflexivity].
  destruct (lt_negtrans a b c Hac); congruence.
Qed.

Lemma lt_asym a b : lt a b = true -> lt b a = false.
Proof.
  intros Hab. destruct (lt b a) eqn:Hba; [|reflexivity].
  pose proof (lt_trans _ _ _ Hab Hba) as Haa. now rewrite lt_irrefl in Haa.
Qed.



Lemma max_loop_Raise items : forall x kx e,
  max_loop key lt x kx items = Raise e ->
  exists v, In v items /\ key v = Raise e.
Proof.
  induction items as [|item rest IH]; intros x kx e Hloop; simpl in Hloop;
    [discriminate|].
  destruct (key item) as [k|e'] eqn:Hitem; simpl in Hloop.
  - destruct (lt kx k); destruct (IH _ _ _ Hloop) as (v & Hv & Hk);
      exists v; split; auto; now right.
  - injection Hloop as ->. exists item. split; [now left | exact Hitem].
Qed.

Lemma py_max_Raise x items e :
  py_max key lt x items = Raise e ->
  exists v, In v (x :: items) /\ key v = Raise e.
Proof.
  unfold py_max. destruct (key x) as [kx|e'] eqn:Hx; simpl.
  - intros Hloop. destruct (max_loop_Raise _ _ _ _ Hloop) as (v & Hv & Hk).
    exists v. split; [now right | exact Hk].
  - intros [= ->]. exists x. split; [now left | exact Hx].
Qed.

Lemma insert_desc_Permutation (x : A * K) l :
  Permutation (x :: l) (insert_desc lt x l).
Proof.
  induction l as [|y l IH]; simpl; [reflexivity|].
  destruct (lt (snd x) (snd y)); [|reflexivity].
  rewrite perm_swap. now constructor.
Qed.

Lemma sort_desc_Permutation (l : list (A * K)) :
  Permutation l (sort_desc lt l).
Proof.
  induction l as [|x l IH]; simpl; [constructor|].
  rewrite <- insert_desc_Permutation. now constructor.
Qed.

Lemma insert_desc_descending (x : A * K) l :
  descending lt l -> descending lt (insert_desc lt x l).
Proof.
  unfold descending. induction 1 as [|y l Hl IH Hy]; simpl.
  - repeat constructor.
  - destruct (lt (snd x) (snd y)) eqn:Hxy.
    + constructor; [exact IH|].
      rewrite <- (insert_desc_Permutation x l).
      constructor; [now apply lt_asym | exact Hy].
    + constructor; [now constructor|].
      constructor; [exact Hxy|].
      eapply Forall_impl; [exact Hy|].
      intros z Hz. now apply lt_false_trans with (snd y).
Qed.

Lemma sort_desc_descending (l : list (A * K)) :
  descending lt (sort_desc lt l).
Proof.
  induction l as [|x l IH]; simpl;
    [constructor | now apply insert_desc_descending].
Qed.

(** The sort is stable: among entries whose keys do not differ, the one
    that came first in the input stays first. *)
Lemma insert_desc_stable (x : A * K) l :
  Forall (fun y => lt (snd x) (snd y) = false) l -> insert_desc lt x l = x :: l.
Proof.
  destruct 1 as [|y l Hy _]; simpl; [reflexivity | now rewrite Hy].
Qed.
End BuiltinsFacts.

(** ** The computing fragment of [packaging] obeys the laws *)

Lemma tuple_lt_irrefl a : Pep440.tuple_lt a a = false.
Proof.
  induction a as [|x a IH]; simpl; [reflexivity|].
  rewrite N.ltb_irrefl, N.eqb_refl. exact IH.
Qed.

Lemma tuple_lt_cons x a y b :
  Pep440.tuple_lt (x :: a) (y :: b) = true <->
  (x < y)%N \/ (x = y /\ Pep440.tuple_lt a b = true).
Proof.
  simpl. destruct (N.ltb_spec x y), (N.eqb_spec x y); simpl;
    intuition (try lia; try discriminate).
Qed.

Lemma tuple_lt_trans a : forall b c,
  Pep440.tuple_lt a b = true -> Pep440.tuple_lt b c = true ->
  Pep440.tuple_lt a c = true.
Proof.
  induction a as [|x a IH]; intros [|y b] [|z c] Hab Hbc;
    try discriminate; try reflexivity.
  apply tuple_lt_cons in Hab, Hbc. apply tuple_lt_cons.
  destruct Hab as [Hab|[-> Hab]], Hbc as [Hbc|[-> Hbc]];
    [left; lia | now left | now left | right; split; eauto].
Qed.

Lemma tuple_lt_negtrans a : forall b c,
  Pep440.tuple_lt a c = true ->
  Pep440.tuple_lt a b = true \/ Pep440.tuple_lt b c = true.
Proof.
  induction a as [|x a IH]; intros [|y b] [|z c] Hac;
    try discriminate; auto.
  apply tuple_lt_cons in Hac. rewrite !tuple_lt_cons.
  destruct (N.lt_trichotomy x y) as [Hxy|[->|Hxy]]; [now auto | |].
  - destruct Hac as [Hac|[-> Hac]]; [now auto|].
    destruct (IH b c Hac); auto.
  - right. left. destruct Hac as [Hac|[-> Hac]]; lia.
Qed.

Lemma release_lt_laws :
  (forall a, Pep440.release_lt a a = false) /\
  (forall a b c, Pep440.release_lt a b = true -> Pep440.release_lt b c = true ->
                 Pep440.release_lt a c = true) /\
  (forall a b c, Pep440.release_lt a c = true ->
                 Pep440.release_lt a b = true \/ Pep440.release_lt b c = true).
Proof.
  unfold Pep440.release_lt. repeat split; intros.
  - apply tuple_lt_irrefl.
  - eapply tuple_lt_trans; eauto.
  - now apply tuple_lt_negtrans.
Qed.

#[export] Instance packaging_25_laws : PackagingLaws Pep440.packaging_25.
Proof.
  destruct release_lt_laws as (Hi & Ht & Hn).
  constructor; [exact Hi | exact Ht | exact Hn].
Qed.

#[export] Instance packaging_26_laws : PackagingLaws Pep440.packaging_26.
Proof.
  destruct release_lt_laws as (Hi & Ht & Hn).
  constructor; [exact Hi | exact Ht | exact Hn].
Qed.

(** ** The constraint resolver *)

Section ResolverFacts.
Context {P : Packaging}.

Lemma matching_Ok spec versions m :
  matching spec versions = Ok m ->
  m = List.filter (satisfies spec) versions /\
  Forall (fun v => SpecifierSet_contains spec v <> None) versions.
Proof.
  revert m. induction versions as [|v rest IH]; intros m; simpl.
  - intros [= <-]. split; constructor.
  - unfold satisfies at 1.
    destruct (SpecifierSet_contains spec v) as [b|] eqn:Hv; simpl;
      [|discriminate].
    destruct (matching spec rest) as [m'|] eqn:Hrest; simpl; [|discriminate].
    intros [= <-]. destruct (IH m' eq_refl) as [-> Hall].
    split; [now destruct b | constructor; [congruence | exact Hall]].
Qed.

Lemma matching_total spec versions :
  Forall (fun v => SpecifierSet_contains spec v <> None) versions ->
  matching spec versions = Ok (List.filter (satisfies spec) versions).
Proof.
  induction 1 as [|v rest Hv _ IH]; simpl; [reflexivity|].
  unfold satisfies at 1.
  destruct (SpecifierSet_contains spec v) as [b|]; [|congruence].
  simpl. rewrite IH. simpl. now destruct b.
Qed.

Lemma matching_Raise spec versions e :
  matching spec versions = Raise e ->
  e = InvalidVersion /\
  Exists (fun v => SpecifierSet_contains spec v = None) versions.
Proof.
  induction versions as [|v rest IH]; simpl; [discriminate|].
  destruct (SpecifierSet_contains spec v) as [b|] eqn:Hv; simpl.
  - destruct (matching spec rest) as [m'|e'] eqn:Hrest; simpl; [discriminate|].
    intros [= ->]. destruct (IH eq_refl) as [-> Hex].
    split; [reflexivity | now right].
  - intros [= <-]. split; [reflexivity | now left].
Qed.



Lemma parse_Raise x e : parse x = Raise e -> e = InvalidVersion.
Proof. unfold parse. destruct (version_parse x); simpl; congruence. Qed.

(** Whatever the [try] block raises, [except Exception] catches. *)
Lemma find_latest_matching_version_try_Raise versions c e :
  find_latest_matching_version_try versions c = Raise e ->
  is_Exception e = true.
Proof.
  unfold find_latest_matching_version_try.
  destruct (SpecifierSet_init c) as [spec|]; simpl; [|now intros [= <-]].
  destruct (matching spec versions) as [[|v rest]|e'] eqn:Hm; simpl.
  - discriminate.
  - intros Hmax. apply py_max_Raise in Hmax as (x & _ & Hx).
    now apply parse_Raise in Hx as ->.
  - intros [= <-]. now apply matching_Raise in Hm as [-> _].
Qed.

Lemma find_latest_matching_version_returns versions c :
  exists r, find_latest_matching_version versions c = Ok r.
Proof.
  unfold find_latest_matching_version.
  destruct (find_latest_matching_version_try versions c) as [r|e] eqn:Htry;
    [now exists r|].
  rewrite (find_latest_matching_version_try_Raise _ _ _ Htry). now exists "".
Qed.

Lemma find_latest_matching_version_of_try versions c r :
  find_latest_matching_version_try versions c = Ok r ->
  find_latest_matching_version versions c = Ok r.
Proof. unfold find_latest_matching_version. now intros ->. Qed.

End ResolverFacts.

Section ResolverTheorems.
Context {P : Packaging} {L : PackagingLaws P}.



End ResolverTheorems.




(** C10. For every constraint string [find_latest_matching_version]
    returns a string and raises nothing; a constraint that the library
    cannot parse gives the empty string.  Terraform's [~> 1.2] is such a
    constraint. *)
Theorem find_latest_matching_version_total :
  (forall (P : Packaging) (versions : list string) (c : string),
     exists r, find_latest_matching_version versions c = Ok r /\
       (SpecifierSet_init c = None -> r = "")) /\
  (forall versions : list string,
     @SpecifierSet_init Pep440.packaging_26 "~> 1.2" = None /\
     @find_latest_matching_version Pep440.packaging_26 versions "~> 1.2"
       = Ok "").
Proof.
  split.
  - intros P versions c.
    destruct (find_latest_matching_version_returns versions c) as [r Hr].
    exists r. split; [exact Hr|]. intros Hnone.
    unfold find_latest_matching_version, find_latest_matching_version_try in Hr.
    rewrite Hnone in Hr. simpl in Hr. congruence.
  - intros versions. split; reflexivity.
Qed.

(** ** Reasoning about I/O computations *)

Lemma bind_run {A B} (c : IO A) (k : A -> IO B) (w : World) :
  (c ≫= k) w =
  match c w with
  | (Ok a, w') => k a w'
  | (Raise e, w') => (Raise e, w')
  end.
Proof. reflexivity. Qed.

Lemma bind_Ok {A B} (c : IO A) (k : A -> IO B) (w w' : World) (b : B) :
  (c ≫= k) w = (Ok b, w') ->
  exists a w1, c w = (Ok a, w1) /\ k a w1 = (Ok b, w').
Proof.
  rewrite bind_run. destruct (c w) as [[a|e] w1]; [eauto | discriminate].
Qed.

Lemma lift_Ok {A} (r : result A) (w w' : World) (a : A) :
  lift r w = (Ok a, w') -> r = Ok a /\ w' = w.
Proof. unfold lift. now intros [= -> ->]. Qed.

Section Preserves.
Context {X : Type} (proj : World -> X).

Lemma preserves_ret {A} (a : A) : preserves proj (mret a).
Proof. now intros w. Qed.

Lemma preserves_lift {A} (r : result A) : preserves proj (lift r).
Proof. now intros w. Qed.

Lemma preserves_raise {A} (e : exn) : preserves proj (@raise A e).
Proof. now intros w. Qed.

Lemma preserves_bind {A B} (c : IO A) (k : A -> IO B) :
  preserves proj c -> (forall a, preserves proj (k a)) ->
  preserves proj (c ≫= k).
Proof.
  intros Hc Hk w. rewrite bind_run. specialize (Hc w).
  destruct (c w) as [[a|e] w1]; simpl in *; [|exact Hc].
  now rewrite Hk.
Qed.

Lemma preserves_try_except {A} (body : IO A) catches handler :
  preserves proj body -> (forall e, preserves proj (handler e)) ->
  preserves proj (try_except body catches handler).
Proof.
  intros Hb Hh w. unfold try_except. specialize (Hb w).
  destruct (body w) as [[a|e] w1]; simpl in *; [exact Hb|].
  destruct (catches e); simpl; [now rewrite Hh | exact Hb].
Qed.

Lemma preserves_print (e : event) : silent proj -> preserves proj (print e).
Proof. intros Hs w. apply Hs. Qed.

Lemma preserves_input (prompt : event) :
  silent proj -> preserves proj (input prompt).
Proof.
  intros Hs w. unfold input. destruct (stdin w); apply Hs.
Qed.

Lemma preserves_forM_ {A} (f : A -> IO unit) (items : list A) :
  (forall x, preserves proj (f x)) -> preserves proj (forM_ f items).
Proof.
  intros Hf. induction items as [|x rest IH]; simpl.
  - apply preserves_ret.
  - apply preserves_bind; auto.
Qed.
End Preserves.

Lemma silent_http_log : silent http_log.
Proof. now intros w out keys. Qed.

Lemma silent_files : silent files.
Proof. now intros w out keys. Qed.

Lemma silent_fs_log : silent fs_log.
Proof. now intros w out keys. Qed.

Create HintDb io.
#[local] Hint Resolve silent_http_log silent_files silent_fs_log : io.

(** Walks down a computation built from [lift], [print], [mret] and
    [raise], proving that it preserves a silent component. *)
Ltac preserves_steps :=
  repeat first
    [ apply preserves_ret
    | apply preserves_lift
    | apply preserves_raise
    | apply preserves_print; auto with io
    | apply preserves_bind; [|intros ?]
    | match goal with
      | |- preserves _ (if ?b then _ else _) => destruct b
      | |- preserves _ (match ?x with _ => _ end) => destruct x
      end ].

(** ** The registry client *)

Lemma StronglySorted_map {A B} (f : A -> B) (R : B -> B -> Prop) (l : list A) :
  StronglySorted (fun x y => R (f x) (f y)) l -> StronglySorted R (map f l).
Proof.
  induction 1 as [|x l Hl IH Hx]; simpl; constructor; [exact IH|].
  clear Hl IH. induction Hx; simpl; constructor; auto.
Qed.

Section RegistryFacts.
Context {P : Packaging} {R : Requests} {J : Json}.

Lemma try_except_http_get {A} url hs (k : Response -> IO A) catches handler w :
  (forall r, preserves http_log (k r)) ->
  (forall e, preserves http_log (handler e)) ->
  http_log (snd (try_except (http_get url hs ≫= k) catches handler w))
  = http_log w ++ [(url, hs)].
Proof.
  intros Hk Hh. unfold try_except. rewrite bind_run. unfold http_get at 1.
  destruct (requests_get url hs) as [r|e].
  - match goal with |- context [k r ?w1] =>
      specialize (Hk r w1); destruct (k r w1) as [[a|e] w2] end;
      simpl in *; [exact Hk|].
    destruct (catches e); simpl; [now rewrite Hh | exact Hk].
  - destruct (catches e); simpl; [now rewrite Hh | reflexivity].
Qed.

Lemma fetch_versions_http_log mi url hs w :
  http_log (snd (fetch_versions mi url hs w)) = http_log w ++ [(url, hs)].
Proof.
  unfold fetch_versions. apply try_except_http_get; intros; preserves_steps.
Qed.

Lemma versions_request_public mi token w :
  is_private mi && py_truthy token = false ->
  versions_request mi token w = (Ok (public_url mi, []), w).
Proof. intros Hb. unfold versions_request. now rewrite Hb. Qed.

(** C9. Without a token (the value is [None], or empty)
    [get_module_versions] asks nothing of the private host: the request it
    builds is the public URL of registry.terraform.io for the namespace,
    module and provider of the reference, with no header, and that request
    is the only one it issues.  A request that goes elsewhere, or any
    request made while the URL is chosen, means that the reference is
    private and that a token is present. *)
Theorem get_module_versions_without_token
  (mi : ModuleInfo) (token : pyval) (w : World) :
  py_truthy token = false ->
  versions_request mi token w = (Ok (public_url mi, []), w) /\
  http_log (snd (get_module_versions mi token w))
    = http_log w ++ [(public_url mi, [])] /\
  forall token' w0 url hs w1,
    versions_request mi token' w0 = (Ok (url, hs), w1) ->
    (url, hs) <> (public_url mi, []) \/ http_log w1 <> http_log w0 ->
    is_private mi = true /\ py_truthy token' = true.
Proof.
  intros Hfalsy.
  assert (Hreq : versions_request mi token w = (Ok (public_url mi, []), w)).
  { apply versions_request_public. rewrite Hfalsy. apply andb_false_r. }
  split; [exact Hreq|]. split.
  - unfold get_module_versions. rewrite bind_run, Hreq.
    apply fetch_versions_http_log.
  - intros token' w0 url hs w1 Hreq' Hother.
    destruct (is_private mi && py_truthy token') eqn:Hb.
    + now apply andb_true_iff in Hb.
    + rewrite (versions_request_public _ _ _ Hb) in Hreq'.
      injection Hreq' as ? ? ?; subst.
      destruct Hother as [Hn|Hn]; now elim Hn.
Qed.

Lemma mapM_version_key (vs : list pyval) d :
  mapM version_key vs = Ok d ->
  Forall (fun sk => version_parse (fst sk) = Some (snd sk)) d.
Proof.
  revert d. induction vs as [|v vs IH]; intros d; simpl.
  - intros [= <-]. constructor.
  - destruct v as [| | |s| |]; simpl; try discriminate.
    unfold parse. destruct (version_parse s) as [k|] eqn:Hs; simpl;
      [|discriminate].
    destruct (mapM version_key vs) as [d'|]; simpl; [|discriminate].
    intros [= <-]. constructor; [exact Hs | now apply IH].
Qed.

Lemma decorated_sorted `{!PackagingLaws P} (d : list (string * Version)) :
  Forall (fun sk => version_parse (fst sk) = Some (snd sk)) d ->
  sorted_descending (map fst (sort_desc version_lt d)).
Proof.
  intros Hd. exists (map snd (sort_desc version_lt d)). split.
  - apply (Permutation_Forall (sort_desc_Permutation version_lt d)) in Hd.
    induction Hd; simpl; constructor; auto.
  - apply StronglySorted_map.
    apply (sort_desc_descending version_lt version_lt_irrefl version_lt_trans
             version_lt_negtrans).
Qed.

Lemma sorted_descending_nil : sorted_descending [].
Proof. exists []. split; constructor. Qed.

Lemma fetch_versions_sorted `{!PackagingLaws P} mi url hs w versions w' :
  fetch_versions mi url hs w = (Ok versions, w') ->
  sorted_descending versions.
Proof.
  unfold fetch_versions, try_except.
  match goal with |- context [match ?body w with _ => _ end] =>
    destruct (body w) as [[vs|e] w1] eqn:Hbody end.
  - intros [= <- <-].
    repeat (apply bind_Ok in Hbody as (? & ? & ? & Hbody)).
    injection Hbody as <- _.
    match goal with Hd : lift (mapM version_key _) _ = _ |- _ =>
      apply lift_Ok in Hd as [Hd _]; apply mapM_version_key in Hd end.
    now apply decorated_sorted.
  - destruct (is_RequestException e); [|discriminate].
    destruct e; try (intros [= <- _]; apply sorted_descending_nil).
    destruct (status =? 404); intros [= <- _]; apply sorted_descending_nil.
Qed.
End RegistryFacts.

Lemma get_module_versions_without_token_witness :
  http_log
    (snd (@get_module_versions Pep440.packaging_26
            (Fixture.registry_answering (Fixture.listing ["1.0.0"]))
            Fixture.json Fixture.private_module PNone Fixture.world))
  = [("https://registry.terraform.io/v1/modules/org/mod/aws/versions", [])].
Proof.
  destruct (@get_module_versions_without_token Pep440.packaging_26
              (Fixture.registry_answering (Fixture.listing ["1.0.0"]))
              Fixture.json Fixture.private_module PNone Fixture.world eq_refl)
    as (_ & Hlog & _).
  exact Hlog.
Defined.

(** C5. Whenever [get_module_versions] returns a list, the list is in
    descending version order: every entry parses as a version and none is
    smaller than a later one.  Versions compare by the numbers of their
    components, not as text: a registry that lists 1.2.0, 1.10.0 and 1.3.0
    gives 1.10.0, 1.3.0, 1.2.0. *)
Theorem get_module_versions_sorted :
  (forall (P : Packaging) (L : PackagingLaws P) (R : Requests) (J : Json)
          (mi : ModuleInfo) (token : pyval) (w w' : World)
          (versions : list string),
     get_module_versions mi token w = (Ok versions, w') ->
     sorted_descending versions) /\
  fst (@get_module_versions Pep440.packaging_26
         (Fixture.registry_answering
            (Fixture.listing ["1.2.0"; "1.10.0"; "1.3.0"]))
         Fixture.json Fixture.private_module PNone Fixture.world)
  = Ok ["1.10.0"; "1.3.0"; "1.2.0"].
Proof.
  split; [|reflexivity].
  intros P L R J mi token w w' versions Hget.
  unfold get_module_versions in Hget.
  apply bind_Ok in Hget as ([url hs] & w1 & _ & Hfetch).
  now apply fetch_versions_sorted in Hfetch.
Qed.

Lemma get_module_versions_sorted_witness :
  @sorted_descending Pep440.packaging_26 ["1.10.0"; "1.3.0"; "1.2.0"].
Proof.
  destruct get_module_versions_sorted as [Hsorted Hexample].
  destruct (@get_module_versions Pep440.packaging_26
              (Fixture.registry_answering
                 (Fixture.listing ["1.2.0"; "1.10.0"; "1.3.0"]))
              Fixture.json Fixture.private_module PNone Fixture.world)
    as [r w'] eqn:Hget.
  simpl in Hexample. subst r.
  exact (Hsorted Pep440.packaging_26 packaging_26_laws _ _ _ _ _ _ _ Hget).
Defined.

(** ** Updating a file *)

Section DictFacts.
Context {V : Type}.

Lemma dict_get_set_eq k (v : V) d : dict_get k (dict_set k v d) = Some v.
Proof.
  induction d as [|[k' v'] d IH]; simpl.
  - now rewrite String.eqb_refl.
  - destruct (String.eqb k' k) eqn:Hk; simpl; now rewrite Hk.
Qed.

Lemma dict_get_set_ne k k' (v : V) d :
  k <> k' -> dict_get k' (dict_set k v d) = dict_get k' d.
Proof.
  intros Hne. induction d as [|[k0 v0] d IH]; simpl.
  - destruct (String.eqb_spec k k'); [contradiction | reflexivity].
  - destruct (String.eqb_spec k0 k) as [->|Hk]; simpl.
    + destruct (String.eqb_spec k k'); [contradiction | reflexivity].
    + now rewrite IH.
Qed.

End DictFacts.



Lemma length_append (s1 s2 : string) :
  String.length (s1 +:+ s2) = (String.length s1 + String.length s2)%nat.
Proof. induction s1 as [|c s1 IH]; simpl; [reflexivity | now rewrite IH]. Qed.

(** The backup never has the name of the file it saves. *)
Lemma backup_path_of_ne path stamp : backup_path_of path stamp <> path.
Proof.
  unfold backup_path_of. intros Heq.
  apply (f_equal String.length) in Heq.
  rewrite !length_append in Heq. simpl in Heq. lia.
Qed.

Section UpdateFacts.
Context {O : OS} {H : Hcl2}.


End UpdateFacts.


(** ** What ends the run *)

Section Absorbed.
Context {P : Packaging} {R : Requests} {O : OS} {J : Json} {H : Hcl2}.

(** A failed request is absorbed: a network failure, or an HTTP status
    from 400 to 599 (404 among them), gives the empty list. *)
Lemma fetch_versions_absorbs_request_failure mi url hs w :
  (exists e, requests_get url hs = Raise e /\ is_RequestException e = true) \/
  (exists r, requests_get url hs = Ok r /\
             400 <= status_code r /\ status_code r < 600) ->
  exists w', fetch_versions mi url hs w = (Ok [], w').
Proof.
  intros Hfail. unfold fetch_versions, try_except.
  rewrite bind_run. unfold http_get at 1.
  destruct Hfail as [(e & -> & He) | (r & -> & Hlo & Hhi)].
  - rewrite He. destruct e; try discriminate He; simpl.
    + destruct (status =? 404); eexists; reflexivity.
    + eexists; reflexivity.
  - rewrite bind_run. unfold lift at 1, raise_for_status.
    destruct (Z.leb_spec 400 (status_code r)); [|lia].
    destruct (Z.ltb_spec (status_code r) 600); [|lia].
    simpl. destruct (status_code r =? 404); eexists; reflexivity.
Qed.

End Absorbed.

(** C8. The run below has a valid scan root and asks for no credential.
    The registry answers the request for the versions of the one declared
    module with the document [{"modules": []}].  [get_module_versions]
    takes element 0 of the empty list; the [IndexError] is not a
    [RequestException], so no handler catches it and the process ends with
    status 1.  A listed version that is not a version for [packaging] ends
    the run in the same way, with [InvalidVersion] from [sorted]. *)
Theorem main_ends_on_empty_modules_list :
  let run (body : pyval) :=
    fst (@main Pep440.packaging_26 (Fixture.registry_answering body)
           Fixture.os Fixture.json Fixture.hcl2 Fixture.report_only
           Fixture.world) in
  @isdir Fixture.os (path Fixture.report_only) = true /\
  use_token Fixture.report_only = false /\
  run Fixture.empty_modules = Raise IndexError /\
  exit_status (run Fixture.empty_modules) = 1 /\
  run (Fixture.listing ["1.2.0"; "1.10.0-nightly"]) = Raise InvalidVersion /\
  run (Fixture.listing ["1.2.0"; "1.10.0"]) = Ok tt.
Proof. cbv zeta. repeat split. Qed.

(** ** What the run prints *)

Section Prints.
Variable Q : event -> Prop.










End Prints.


Section Rows.
Context {P : Packaging} {R : Requests} {O : OS} {J : Json} {H : Hcl2}.
Variable Q : event -> Prop.





End Rows.


Section RowTheorem.
Context {P : Packaging} {R : Requests} {O : OS} {J : Json} {H : Hcl2}.







End RowTheorem.


(** ** Further properties of the run *)

Lemma current_version_of_pin_example : current_version_of "= 1.2.0" = "1.2.0".
Proof.
  rewrite (current_version_of_pin " 1.2.0" eq_refl). reflexivity.
Defined.

Lemma fetch_versions_absorbs_not_found :
  exists w',
    @fetch_versions Pep440.packaging_26 (Fixture.registry_failing 404)
      Fixture.private_module "https://registry.example/versions" []
      Fixture.world = (Ok [], w').
Proof.
  apply (@fetch_versions_absorbs_request_failure Pep440.packaging_26
           (Fixture.registry_failing 404)).
  right. eexists. split; [reflexivity|]. simpl. lia.
Defined.

Section Fatal.
Context {P : Packaging} {R : Requests} {O : OS} {J : Json} {H : Hcl2}.

(** The two fatal conditions: a scan root that is not a directory, and,
    when a token is asked for, a credential file that does not exist.
    Either ends the process with status 1 before anything is scanned. *)
Lemma main_fatal (args : Args) (w : World) :
  isdir (path args) = false \/
  (use_token args = true /\
   files w !! expanduser credentials_file = None) ->
  exists w',
    main args w = (Raise (SystemExit 1), w') /\
    exit_status (fst (main args w)) = 1 /\
    http_log w' = http_log w /\ files w' = files w /\
    (stdout w' = stdout w ++ [NotADirectory (path args)] \/
     stdout w' = stdout w ++ [TokenReadFailed]).
Proof.
  intros Hfatal.
  assert (Hrun : exists w',
            main args w = (Raise (SystemExit 1), w') /\
            http_log w' = http_log w /\ files w' = files w /\
            (stdout w' = stdout w ++ [NotADirectory (path args)] \/
             stdout w' = stdout w ++ [TokenReadFailed])).
  { unfold main. destruct (isdir (path args)) eqn:Hdir; simpl.
    - destruct Hfatal as [Hbad|[Htok Hnone]]; [discriminate|].
      rewrite Htok, bind_run.
      unfold get_terraform_token, try_except. rewrite bind_run.
      unfold open_read at 1. rewrite Hnone.
      eexists. split; [reflexivity|]. simpl. auto.
    - eexists. split; [reflexivity|]. simpl. auto. }
  destruct Hrun as (w' & Hmain & Hrest).
  exists w'. rewrite Hmain. split; [reflexivity|]. split; [reflexivity|].
  exact Hrest.
Qed.
End Fatal.

Lemma main_fatal_example :
  exit_status
    (fst (@main Pep440.packaging_26 (Fixture.registry_failing 404) Fixture.os
            Fixture.json Fixture.hcl2
            {| use_token := true; path := "."; update := false; all := false |}
            Fixture.world)) = 1.
Proof.
  destruct (@main_fatal Pep440.packaging_26 (Fixture.registry_failing 404)
              Fixture.os Fixture.json Fixture.hcl2
              {| use_token := true; path := "."; update := false; all := false |}
              Fixture.world) as (w' & _ & Hexit & _).
  - right. split; reflexivity.
  - exact Hexit.
Defined.

(** * Further properties *)

(** ** The source locator, again *)

Lemma split_segments_sep_free sep s :
  Forall (fun part => Py.contains sep part = false) (Py.split sep s).
Proof.
  induction s as [|c s IH]; simpl; [repeat constructor|].
  destruct (Ascii.eqb c sep) eqn:Hc; [now constructor|].
  destruct (Py.split sep s) as [|h t]; [repeat constructor; simpl; now rewrite Hc|].
  inversion IH as [|? ? Hh Ht]; subst.
  constructor; [simpl; now rewrite Hc | exact Ht].
Qed.

Lemma split_one_segment sep s :
  Py.contains sep s = false -> Py.split sep s = [s].
Proof.
  induction s as [|c s IH]; simpl; [reflexivity|].
  destruct (Ascii.eqb c sep); simpl; [discriminate|].
  intros Hs. now rewrite IH.
Qed.

Lemma split_first_segment sep a b :
  Py.contains sep a = false ->
  Py.split sep (a +:+ String sep b) = a :: Py.split sep b.
Proof.
  induction a as [|c a IH]; simpl.
  - now rewrite Ascii.eqb_refl.
  - destruct (Ascii.eqb c sep); simpl; [discriminate|].
    intros Ha. now rewrite IH.
Qed.

(** [str.join] undoes [str.split]. *)
Lemma join_split sep s :
  String.concat (String sep EmptyString) (Py.split sep s) = s.
Proof.
  induction s as [|c s IH]; simpl; [reflexivity|].
  destruct (Ascii.eqb_spec c sep) as [->|Hc].
  - pose proof (split_not_nil sep s) as Hne.
    destruct (Py.split sep s) as [|h t] eqn:Hs; [contradiction|].
    simpl in *. now rewrite IH.
  - pose proof (split_not_nil sep s) as Hne.
    destruct (Py.split sep s) as [|h t] eqn:Hs; [contradiction|].
    simpl in *. destruct t; simpl in *; now rewrite <- IH.
Qed.

Lemma nth_segment_sep_free sep s i :
  Py.contains sep (nth i (Py.split sep s) "") = false.
Proof.
  pose proof (split_segments_sep_free sep s) as Hall.
  revert i. induction Hall as [|p l Hp _ IH]; intros [|i]; simpl; auto.
Qed.

(** Every reference [parse_module_source] returns has a namespace, a
    module and a provider without a slash.  A private reference has a host
    with a dot and without a slash; a public one has the host
    registry.terraform.io.  The source is the fields joined by slashes,
    followed by whatever further segments there were. *)
Theorem parse_module_source_fields (src : string) (mi : ModuleInfo) :
  parse_module_source src = Some mi ->
  slash_free (namespace mi) = true /\
  slash_free (module mi) = true /\
  slash_free (provider mi) = true /\
  match registry mi with
  | private =>
      Py.contains "." (hostname mi) = true /\
      slash_free (hostname mi) = true /\
      exists rest,
        Py.split "/" src =
          hostname mi :: namespace mi :: module mi :: provider mi :: rest
  | public =>
      hostname mi = "registry.terraform.io" /\
      exists rest,
        Py.split "/" src = namespace mi :: module mi :: provider mi :: rest
  end.
Proof.
  unfold parse_module_source, slash_free.
  pose proof (nth_segment_sep_free "/" src 0) as H0.
  pose proof (nth_segment_sep_free "/" src 1) as H1.
  pose proof (nth_segment_sep_free "/" src 2) as H2.
  pose proof (nth_segment_sep_free "/" src 3) as H3.
  destruct (Py.split "/" src) as [|p0 [|p1 [|p2 [|p3 rest]]]] eqn:Hs;
    simpl in *; try discriminate.
  - intros [= <-]; simpl. rewrite H0, H1, H2.
    repeat split; auto. now exists [].
  - destruct (Py.contains "." p0) eqn:Hdot; intros [= <-]; simpl.
    + rewrite H0, H1, H2, H3. repeat split; auto. now exists rest.
    + rewrite H0, H1, H2. repeat split; auto. now exists (p3 :: rest).
Qed.

Lemma parse_module_source_fields_example :
  Py.contains "." "example.com" = true /\
  exists rest,
    Py.split "/" "example.com/org/mod/aws//modules/vpc"
    = "example.com" :: "org" :: "mod" :: "aws" :: rest.
Proof.
  pose proof (parse_module_source_fields
                "example.com/org/mod/aws//modules/vpc"
                Fixture.private_module eq_refl) as (_ & _ & _ & Hpriv).
  simpl in Hpriv. destruct Hpriv as (Hdot & _ & Hsplit).
  split; [exact Hdot | exact Hsplit].
Defined.

Lemma split_slash a b :
  Py.contains "/" a = false ->
  Py.split "/" (a +:+ "/" +:+ b) = a :: Py.split "/" b.
Proof. exact (split_first_segment "/" a b). Qed.

(** The coordinates that [get_module_versions] writes into a URL parse
    back: when namespace, module and provider hold no slash,
    ["namespace/module/provider"] is a public reference with these fields,
    and with a host in front that holds a dot and no slash it is the
    private reference itself. *)
Theorem parse_module_source_of_coordinates (mi : ModuleInfo) :
  slash_free (namespace mi) = true ->
  slash_free (module mi) = true ->
  slash_free (provider mi) = true ->
  parse_module_source (coordinates mi)
  = Some {| registry := public; hostname := "registry.terraform.io";
            namespace := namespace mi; module := module mi;
            provider := provider mi |} /\
  (registry mi = private ->
   slash_free (hostname mi) = true ->
   Py.contains "." (hostname mi) = true ->
   parse_module_source (hostname mi +:+ "/" +:+ coordinates mi) = Some mi).
Proof.
  unfold slash_free. intros Hn Hm Hp.
  apply negb_true_iff in Hn, Hm, Hp.
  assert (Hsplit : Py.split "/" (coordinates mi)
                   = [namespace mi; module mi; provider mi]).
  { unfold coordinates.
    rewrite (split_slash _ _ Hn), (split_slash _ _ Hm).
    now rewrite (split_one_segment "/" _ Hp). }
  split.
  - unfold parse_module_source. now rewrite Hsplit.
  - intros Hpriv Hh Hdot. apply negb_true_iff in Hh.
    unfold parse_module_source.
    rewrite (split_slash _ _ Hh), Hsplit. simpl.
    rewrite Hdot. destruct mi as [[] h n m p]; simpl in *;
      [reflexivity | discriminate].
Qed.

Lemma parse_module_source_of_coordinates_example :
  parse_module_source "org/mod/aws"
  = Some {| registry := public; hostname := "registry.terraform.io";
            namespace := "org"; module := "mod"; provider := "aws" |} /\
  parse_module_source "example.com/org/mod/aws" = Some Fixture.private_module.
Proof.
  destruct (parse_module_source_of_coordinates Fixture.private_module
              eq_refl eq_refl eq_refl) as [Hpublic Hprivate].
  split; [exact Hpublic | exact (Hprivate eq_refl eq_refl eq_refl)].
Defined.

(** ** The current version, again *)

Lemma lstrip_no_leading_space s : no_leading_space (Py.lstrip s).
Proof.
  induction s as [|c s IH]; simpl; [exact I|].
  destruct (Py.isspace c) eqn:Hc; [exact IH | exact Hc].
Qed.

Lemma lstrip_fixed s : no_leading_space s -> Py.lstrip s = s.
Proof. destruct s as [|c s]; simpl; [reflexivity | now intros ->]. Qed.

Lemma rstrip_no_leading_space s :
  no_leading_space s -> no_leading_space (Py.rstrip s).
Proof.
  destruct s as [|c s]; simpl; [auto|]. intros Hc.
  destruct (Py.rstrip s); [now rewrite Hc | exact Hc].
Qed.

Lemma rstrip_rstrip s : Py.rstrip (Py.rstrip s) = Py.rstrip s.
Proof.
  induction s as [|c s IH]; simpl; [reflexivity|].
  destruct (Py.rstrip s) as [|d r] eqn:Hr.
  - destruct (Py.isspace c) eqn:Hc; simpl; [reflexivity | now rewrite Hc].
  - change (Py.rstrip (String c (String d r))) with
      (match Py.rstrip (String d r) with
       | EmptyString =>
           if Py.isspace c then EmptyString else String c EmptyString
       | r' => String c r'
       end).
    now rewrite IH.
Qed.

Lemma strip_strip s : Py.strip (Py.strip s) = Py.strip s.
Proof.
  unfold Py.strip.
  rewrite (lstrip_fixed (Py.rstrip (Py.lstrip s))).
  - apply rstrip_rstrip.
  - apply rstrip_no_leading_space, lstrip_no_leading_space.
Qed.

Lemma contains_remove_all c s : Py.contains c (Py.remove_all c s) = false.
Proof.
  induction s as [|d s IH]; simpl; [reflexivity|].
  destruct (Ascii.eqb d c) eqn:Hd; simpl; [exact IH | now rewrite Hd].
Qed.

Lemma contains_lstrip c s :
  Py.contains c s = false -> Py.contains c (Py.lstrip s) = false.
Proof.
  induction s as [|d s IH]; simpl; [auto|].
  destruct (Py.isspace d); simpl; [|auto].
  intros Hs. apply orb_false_iff in Hs as [_ Hs]. auto.
Qed.

Lemma contains_rstrip c s :
  Py.contains c s = false -> Py.contains c (Py.rstrip s) = false.
Proof.
  induction s as [|d s IH]; simpl; [auto|].
  intros Hs. apply orb_false_iff in Hs as [Hd Hs]. specialize (IH Hs).
  destruct (Py.rstrip s); simpl in *.
  - destruct (Py.isspace d); simpl; [reflexivity | now rewrite Hd].
  - now rewrite Hd, IH.
Qed.

(** The current version of a constraint that starts with [=] holds no
    [=] at all and neither starts nor ends with white space: stripping it
    once more changes nothing. *)
Theorem current_version_of_pinned (c : string) :
  Py.startswith "=" c = true ->
  Py.contains "=" (current_version_of c) = false /\
  Py.strip (current_version_of c) = current_version_of c.
Proof.
  intros Hc. unfold current_version_of. rewrite Hc. split.
  - apply contains_rstrip, contains_lstrip, contains_remove_all.
  - apply strip_strip.
Qed.

Lemma current_version_of_pinned_example :
  current_version_of "==  1.2.0 " = "1.2.0" /\
  Py.contains "=" (current_version_of "==  1.2.0 ") = false.
Proof.
  destruct (current_version_of_pinned "==  1.2.0 " eq_refl) as [Hno _].
  split; [reflexivity | exact Hno].
Defined.

(** ** The credential file *)

Section Token.
Context {O : OS} {J : Json}.

End Token.


(** ** The modules path of a private registry *)

Lemma endswith_slash_cons c s :
  Py.endswith "/" (String c s) =
  match s with
  | EmptyString => Ascii.eqb c "/"
  | _ => Py.endswith "/" s
  end.
Proof.
  unfold Py.endswith. destruct s as [|d s]; simpl.
  - destruct (Ascii.eqb_spec c "/") as [->|Hc]; [reflexivity|].
    destruct (String.eqb_spec (String c "") "/") as [[= ->]|]; congruence.
  - now rewrite Nat.sub_0_r.
Qed.

Lemma rstrip_slash_no_trailing s :
  Py.endswith "/" (Py.rstrip_char "/" s) = false.
Proof.
  induction s as [|c s IH]; [reflexivity|]. simpl.
  destruct (Py.rstrip_char "/" s) as [|d r] eqn:Hr.
  - destruct (Ascii.eqb c "/") eqn:Hc; [reflexivity|].
    now rewrite endswith_slash_cons.
  - now rewrite endswith_slash_cons.
Qed.

Section ModulesPath.
Context {R : Requests}.

(** When the request for the well-known document fails, with a network
    error, an HTTP status from 400 to 599 or a body that is not JSON,
    [get_modules_path] prints the failure and returns the default path
    [/api/registry/v1/modules]. *)
Theorem get_modules_path_falls_back (host : string) (w : World) :
  (exists e, requests_get (well_known_url host) [] = Raise e /\
             is_RequestException e = true) \/
  (exists r, requests_get (well_known_url host) [] = Ok r /\
             ((400 <= status_code r /\ status_code r < 600) \/
              exists e, json_body r = Raise e /\
                        is_RequestException e = true)) ->
  exists w',
    get_modules_path host w = (Ok "/api/registry/v1/modules", w') /\
    stdout w' = stdout w ++ [WellKnownFailed host; FallbackPath] /\
    http_log w' = http_log w ++ [(well_known_url host, [])] /\
    files w' = files w.
Proof.
  intros Hfail. unfold get_modules_path, try_except.
  rewrite bind_run. unfold http_get at 1.
  destruct Hfail as [(e & -> & He) | (r & -> & Hr)].
  - rewrite He. eexists. split; [reflexivity|]. simpl.
    rewrite <- app_assoc. auto.
  - rewrite bind_run. unfold lift at 1, raise_for_status.
    destruct ((400 <=? status_code r) && (status_code r <? 600)) eqn:Hs.
    + simpl. eexists. split; [reflexivity|]. simpl.
      rewrite <- app_assoc. auto.
    + destruct Hr as [[Hlo Hhi] | (e & Hbody & He)].
      * apply andb_false_iff in Hs as [Hs|Hs]; [apply Z.leb_gt in Hs|
          apply Z.ltb_ge in Hs]; lia.
      * rewrite bind_run. unfold lift at 1. rewrite Hbody, He.
        eexists. split; [reflexivity|]. simpl.
        rewrite <- app_assoc. auto.
Qed.

(** The path [get_modules_path] returns never ends with a slash, whether
    it comes from the document, from the default of a document without
    [modules.v1] or from the fallback; and the one request it sends is for
    the well-known document of the host, without a header. *)
Theorem get_modules_path_no_trailing_slash
  (host modules_path : string) (w w' : World) :
  get_modules_path host w = (Ok modules_path, w') ->
  Py.endswith "/" modules_path = false /\
  http_log w' = http_log w ++ [(well_known_url host, [])] /\
  files w' = files w.
Proof.
  intros Hrun. split; [|split].
  - revert Hrun. unfold get_modules_path, try_except.
    match goal with |- context [match ?body w with _ => _ end] =>
      destruct (body w) as [[p|e] w1] eqn:Hbody end.
    + intros [= <- <-].
      apply bind_Ok in Hbody as (r & w2 & Hget & Hbody).
      apply bind_Ok in Hbody as (? & ? & [_ ->]%lift_Ok & Hbody).
      apply bind_Ok in Hbody as (data & ? & [_ ->]%lift_Ok & Hbody).
      apply bind_Ok in Hbody as (value & ? & [_ ->]%lift_Ok & Hbody).
      apply lift_Ok in Hbody as [Hstrip ->].
      destruct value; simpl in Hstrip; try discriminate.
      injection Hstrip as <-. apply rstrip_slash_no_trailing.
    + destruct (is_RequestException e); [|discriminate].
      now intros [= <- <-].
  - replace w' with (snd (get_modules_path host w)) by now rewrite Hrun.
    unfold get_modules_path.
    apply try_except_http_get; intros; preserves_steps.
  - replace w' with (snd (get_modules_path host w)) by now rewrite Hrun.
    assert (Hfiles : preserves files (get_modules_path host)).
    { unfold get_modules_path. apply preserves_try_except.
      - apply preserves_bind; [now intros ?|]. intros ?. preserves_steps.
      - intros ?. preserves_steps. }
    apply Hfiles.
Qed.
End ModulesPath.

Lemma get_modules_path_falls_back_example :
  exists w',
    @get_modules_path (Fixture.registry_failing 503) "example.com"
      Fixture.world = (Ok "/api/registry/v1/modules", w').
Proof.
  destruct (@get_modules_path_falls_back (Fixture.registry_failing 503)
              "example.com" Fixture.world) as (w' & Hrun & _).
  - right. eexists. split; [reflexivity|]. left. simpl. lia.
  - now exists w'.
Defined.

Lemma get_modules_path_no_trailing_slash_example :
  fst (@get_modules_path
         (Fixture.registry_answering
            (PDict [("modules.v1", PStr "/api/v2/modules//")]))
         "example.com" Fixture.world) = Ok "/api/v2/modules" /\
  Py.endswith "/" "/api/v2/modules" = false.
Proof.
  destruct (@get_modules_path
              (Fixture.registry_answering
                 (PDict [("modules.v1", PStr "/api/v2/modules//")]))
              "example.com" Fixture.world) as [r w'] eqn:Hrun.
  pose proof (f_equal fst Hrun) as Hr. vm_compute in Hr. subst r.
  split; [reflexivity|].
  exact (proj1 (get_modules_path_no_trailing_slash _ _ _ _ Hrun)).
Defined.

(** ** The registry client, again *)

Lemma mapM_getitem_entries (vs : list string) :
  mapM (fun v => py_getitem v "version") (map Fixture.version_entry vs)
  = Ok (map PStr vs).
Proof.
  induction vs as [|v vs IH]; simpl; [reflexivity|]. now rewrite IH.
Qed.

Section Listing.
Context {P : Packaging} {R : Requests} {J : Json}.

Lemma mapM_version_key_strings (vs : list string) :
  Forall (fun v => version_parse v <> None) vs ->
  exists d, mapM version_key (map PStr vs) = Ok d /\ map fst d = vs.
Proof.
  induction 1 as [|v vs Hv _ (d & Hd & Hfst)]; simpl.
  - now exists [].
  - unfold parse. destruct (version_parse v) as [k|]; [|contradiction].
    simpl. rewrite Hd. simpl. exists ((v, k) :: d). now rewrite <- Hfst.
Qed.

(** A registry that answers with a listing of versions that all parse
    gets them all back from [get_module_versions]: the result is the
    listed versions, none lost and none added, in descending order.
    Nothing is printed, unless the listing is empty. *)
Theorem fetch_versions_lists_all `{!PackagingLaws P}
  (mi : ModuleInfo) (url : string) (hs : headers) (w : World)
  (r : Response) (vs : list string) :
  requests_get url hs = Ok r ->
  status_code r < 400 \/ 600 <= status_code r ->
  json_body r = Ok (Fixture.listing vs) ->
  Forall (fun v => version_parse v <> None) vs ->
  exists versions w',
    fetch_versions mi url hs w = (Ok versions, w') /\
    Permutation vs versions /\
    sorted_descending versions /\
    stdout w' = stdout w ++
      (if vs is [] then [NoVersionsFound mi] else []).
Proof.
  intros Hreq Hstatus Hbody Hparse.
  destruct (mapM_version_key_strings vs Hparse) as (d & Hd & Hfst).
  assert (Hraise : raise_for_status r = Ok tt).
  { unfold raise_for_status.
    destruct (Z.leb_spec 400 (status_code r)),
             (Z.ltb_spec (status_code r) 600); simpl; auto; lia. }
  exists (map fst (sort_desc version_lt d)).
  unfold fetch_versions, try_except. rewrite bind_run.
  unfold http_get at 1. rewrite Hreq.
  rewrite bind_run. unfold lift at 1. rewrite Hraise.
  rewrite bind_run. unfold lift at 1. rewrite Hbody.
  repeat (rewrite bind_run; unfold lift at 1;
          cbn [Fixture.listing py_get py_getitem0 py_iter dict_get
               String.eqb Ascii.eqb Bool.eqb]).
  rewrite mapM_getitem_entries. rewrite bind_run.
  destruct vs as [|v vs'].
  - simpl in Hd. injection Hd as <-. cbn [map]. unfold print at 1.
    rewrite bind_run. unfold lift at 1. simpl.
    eexists. split; [reflexivity|].
    split; [constructor|]. split; [apply sorted_descending_nil | reflexivity].
  - cbn [map]. unfold mret at 1, IO_ret.
    rewrite bind_run. unfold lift at 1. cbn [map] in Hd. rewrite Hd.
    eexists. split; [reflexivity|]. split; [|split].
    + rewrite <- Hfst. apply Permutation_map, sort_desc_Permutation.
    + apply decorated_sorted. eapply mapM_version_key, Hd.
    + simpl. now rewrite app_nil_r.
Qed.
End Listing.

Lemma fetch_versions_lists_all_example :
  exists versions w',
    @fetch_versions Pep440.packaging_26
      (Fixture.registry_answering (Fixture.listing ["0.9"; "1.0"; "0.10"]))
      Fixture.private_module "https://registry.example/versions" []
      Fixture.world = (Ok versions, w') /\
    Permutation ["0.9"; "1.0"; "0.10"] versions.
Proof.
  destruct (@fetch_versions_lists_all Pep440.packaging_26
              (Fixture.registry_answering
                 (Fixture.listing ["0.9"; "1.0"; "0.10"]))
              packaging_26_laws Fixture.private_module
              "https://registry.example/versions" [] Fixture.world
              {| status_code := 200;
                 json_body := Ok (Fixture.listing ["0.9"; "1.0"; "0.10"]) |}
              ["0.9"; "1.0"; "0.10"] eq_refl)
    as (versions & w' & Hrun & Hperm & _).
  - left. simpl. lia.
  - reflexivity.
  - repeat constructor; discriminate.
  - exists versions, w'. now split.
Defined.

Section RequestsSent.
Context {P : Packaging} {R : Requests} {J : Json}.


End RequestsSent.

(** ** The resolver on the list [get_module_versions] returns *)

Section ResolverOnSorted.
Context {P : Packaging}.

Lemma max_loop_In (items : list string) : forall x kx r,
  max_loop parse version_lt x kx items = Ok r -> In r (x :: items).
Proof.
  induction items as [|item rest IH]; intros x kx r; simpl.
  - intros [= <-]. now left.
  - destruct (parse item) as [k|]; simpl; [|discriminate].
    destruct (version_lt kx k); intros Hloop; apply IH in Hloop;
      destruct Hloop as [<-|Hin]; auto.
Qed.

Lemma find_latest_matching_version_In versions c r :
  find_latest_matching_version versions c = Ok r ->
  r = "" \/ In r versions.
Proof.
  unfold find_latest_matching_version.
  destruct (find_latest_matching_version_try versions c) as [r'|e] eqn:Htry.
  - intros [= <-]. unfold find_latest_matching_version_try in Htry.
    destruct (SpecifierSet_init c) as [spec|]; simpl in Htry; [|discriminate].
    destruct (matching spec versions) as [m|] eqn:Hm; simpl in Htry;
      [|discriminate].
    apply matching_Ok in Hm as [-> _].
    destruct (List.filter (satisfies spec) versions) as [|v rest] eqn:Hf;
      [left; congruence|].
    right. unfold py_max in Htry.
    destruct (parse v) as [k|]; simpl in Htry; [|discriminate].
    apply max_loop_In in Htry. rewrite <- Hf in Htry.
    now apply filter_In in Htry as [Hin _].
  - destruct (is_Exception e); intros [= <-]; now left.
Qed.

Lemma max_loop_keeps_first (items : list string) (keys : list Version) :
  forall x kx,
    Forall2 (fun v k => version_parse v = Some k) items keys ->
    Forall (fun k => version_lt kx k = false) keys ->
    max_loop parse version_lt x kx items = Ok x.
Proof.
  intros x kx Hkeys. revert x kx.
  induction Hkeys as [|v k items keys Hv _ IH]; intros x kx Hle; simpl;
    [reflexivity|].
  inversion Hle as [|? ? Hk Hrest]; subst.
  unfold parse. rewrite Hv. simpl. rewrite Hk. now apply IH.
Qed.

Lemma sorted_descending_filter (f : string -> bool) (versions : list string)
  (keys : list Version) :
  Forall2 (fun v k => version_parse v = Some k) versions keys ->
  StronglySorted (fun a b => version_lt a b = false) keys ->
  exists keys',
    Forall2 (fun v k => version_parse v = Some k)
            (List.filter f versions) keys' /\
    StronglySorted (fun a b => version_lt a b = false) keys' /\
    (forall k, In k keys' -> In k keys).
Proof.
  induction 1 as [|v k versions keys Hv _ IH]; intros Hsorted; simpl.
  - exists []. repeat split; auto; constructor.
  - inversion Hsorted as [|? ? Hs Hk]; subst.
    destruct (IH Hs) as (keys' & H2 & Hs' & Hin).
    destruct (f v).
    + exists (k :: keys'). repeat split.
      * now constructor.
      * constructor; [exact Hs'|].
        rewrite Forall_forall in Hk. apply Forall_forall.
        intros b Hb. apply Hk. apply list_elem_of_In, Hin.
        now apply list_elem_of_In.
      * intros b [<-|Hb]; [now left | right; auto].
    + exists keys'. repeat split; auto using in_cons.
Qed.

(** On a list in descending order, as [get_module_versions] returns it,
    the latest matching version is the first entry that the constraint
    accepts, provided the constraint parses and the membership test answers
    for every entry; it is empty when the constraint accepts no entry.  So
    when the latest version satisfies the constraint, latest matching and
    latest are the same. *)
Theorem find_latest_matching_version_on_sorted
  (versions : list string) (c : string) (spec : SpecifierSet) :
  sorted_descending versions ->
  SpecifierSet_init c = Some spec ->
  Forall (fun v => SpecifierSet_contains spec v <> None) versions ->
  find_latest_matching_version versions c
  = Ok (hd "" (List.filter (satisfies spec) versions)).
Proof.
  intros (keys & Hkeys & Hsorted) Hc Hall.
  apply find_latest_matching_version_of_try.
  unfold find_latest_matching_version_try. rewrite Hc. simpl.
  rewrite (matching_total _ _ Hall). simpl.
  destruct (sorted_descending_filter (satisfies spec) _ _ Hkeys Hsorted)
    as (keys' & Hkeys' & Hsorted' & _).
  destruct (List.filter (satisfies spec) versions) as [|v rest];
    [reflexivity|].
  inversion Hkeys' as [|? k ? ks Hv Hrest]; subst.
  inversion Hsorted' as [|? ? _ Hk]; subst.
  unfold py_max, parse. rewrite Hv. simpl.
  now apply max_loop_keeps_first with ks.
Qed.
End ResolverOnSorted.

Lemma find_latest_matching_version_on_sorted_example :
  @find_latest_matching_version Pep440.packaging_26
     ["2.0.0"; "1.9.9"; "1.5.0"; "1.1.0"] ">= 1.2.0, < 2.0.0" = Ok "1.9.9".
Proof.
  rewrite (@find_latest_matching_version_on_sorted Pep440.packaging_26
             ["2.0.0"; "1.9.9"; "1.5.0"; "1.1.0"] ">= 1.2.0, < 2.0.0"
             [(Pep440.GE, [1; 2; 0]%N); (Pep440.LT, [2; 0; 0]%N)]).
  - reflexivity.
  - exists [[2; 0; 0]%N; [1; 9; 9]%N; [1; 5; 0]%N; [1; 1; 0]%N].
    split; repeat constructor.
  - reflexivity.
  - repeat constructor; discriminate.
Defined.

(** ** Invariants of the run *)

Section Maintains.
Variable I : World -> Prop.

Lemma maintains_weaken {A} (c : IO A) (post post' : A -> Prop) :
  maintains I c post -> (forall a, post a -> post' a) -> maintains I c post'.
Proof. intros Hc Hp w Hw. destruct (Hc w Hw) as [Hi Ha]. split; auto. Qed.

Lemma maintains_ret {A} (a : A) (post : A -> Prop) :
  post a -> maintains I (mret a) post.
Proof.
  intros Hp w Hw. split; [exact Hw|]. intros a' Ha.
  injection Ha as <-. exact Hp.
Qed.

Lemma maintains_lift {A} (r : result A) :
  maintains I (lift r) (fun a => r = Ok a).
Proof. intros w Hw. split; [exact Hw | now intros a]. Qed.

Lemma maintains_raise {A} (e : exn) (post : A -> Prop) :
  maintains I (@raise A e) post.
Proof. intros w Hw. split; [exact Hw | discriminate]. Qed.

Lemma maintains_bind {A B} (c : IO A) (k : A -> IO B) post post' :
  maintains I c post -> (forall a, post a -> maintains I (k a) post') ->
  maintains I (c ≫= k) post'.
Proof.
  intros Hc Hk w Hw. rewrite bind_run. destruct (Hc w Hw) as [Hi Ha].
  destruct (c w) as [[a|e] w1]; simpl in *.
  - apply Hk; auto.
  - split; [exact Hi | discriminate].
Qed.

Lemma maintains_then {A B} (c : IO A) (k : A -> IO B) post' :
  maintains I c (fun _ => True) -> (forall a, maintains I (k a) post') ->
  maintains I (c ≫= k) post'.
Proof. intros Hc Hk. apply maintains_bind with (fun _ => True); auto. Qed.

Lemma maintains_try_except {A} (body : IO A) catches handler post :
  maintains I body post -> (forall e, maintains I (handler e) post) ->
  maintains I (try_except body catches handler) post.
Proof.
  intros Hb Hh w Hw. unfold try_except. destruct (Hb w Hw) as [Hi Ha].
  destruct (body w) as [[a|e] w1]; simpl in *; [now split|].
  destruct (catches e); [now apply Hh|]. split; [exact Hi | discriminate].
Qed.

Lemma maintains_forM_ {A} (f : A -> IO unit) (items : list A) :
  (forall x, maintains I (f x) (fun _ => True)) ->
  maintains I (forM_ f items) (fun _ => True).
Proof.
  intros Hf. induction items as [|x rest IH]; simpl.
  - now apply maintains_ret.
  - apply maintains_then; auto.
Qed.

Lemma maintains_mapM {A B} (f : A -> IO B) (items : list A) :
  (forall x, maintains I (f x) (fun _ => True)) ->
  maintains I (mapM f items) (fun _ => True).
Proof.
  intros Hf. induction items as [|x rest IH]; simpl.
  - now apply maintains_ret.
  - apply maintains_then; [apply Hf|]. intros y.
    apply maintains_then; [apply IH|]. intros ys. now apply maintains_ret.
Qed.
End Maintains.

Section NothingWritten.
Context {R : Requests} {O : OS}.
Variables (w0 : World) (Qe : event -> Prop) (Qk : string -> Prop).

Lemma maintains_print (e : event) :
  Qe e -> maintains (nothing_written w0 Qe Qk) (print e) (fun _ => True).
Proof.
  intros He w (Hf & Hl & (out & Hout & HQ) & Hk). split; [|auto].
  repeat split; simpl; auto. exists (out ++ [e]).
  rewrite Hout, app_assoc. split; [reflexivity|].
  apply Forall_app; auto.
Qed.

Lemma maintains_input (prompt : event) :
  Qe prompt -> maintains (nothing_written w0 Qe Qk) (input prompt) Qk.
Proof.
  intros He w (Hf & Hl & (out & Hout & HQ) & Hk). unfold input.
  assert (Hprinted : exists out', stdout w ++ [prompt] = stdout w0 ++ out' /\
                                  Forall Qe out').
  { exists (out ++ [prompt]). rewrite Hout, app_assoc. split; [reflexivity|].
    apply Forall_app; auto. }
  destruct (stdin w) as [|line rest]; simpl.
  - split; [now repeat split | discriminate].
  - inversion Hk; subst. split; [now repeat split|].
    now intros a [= <-].
Qed.

Lemma maintains_open_read (path : string) :
  maintains (nothing_written w0 Qe Qk) (open_read path)
    (fun content => files w0 !! path = Some content /\ readable path = true).
Proof.
  intros w Hw. unfold open_read. pose proof Hw as (Hf & _).
  destruct (files w !! path) as [content|] eqn:Hc; simpl;
    [|split; [exact Hw | discriminate]].
  destruct (readable path) eqn:Hr; simpl;
    [|split; [exact Hw | discriminate]].
  split; [exact Hw|]. intros a [= <-]. now rewrite <- Hf.
Qed.

Lemma maintains_http_get url hs :
  maintains (nothing_written w0 Qe Qk) (http_get url hs) (fun r => requests_get url hs = Ok r).
Proof. intros w Hw. unfold http_get. simpl. split; [exact Hw | auto]. Qed.

Lemma maintains_now : maintains (nothing_written w0 Qe Qk) now (fun _ => True).
Proof. intros w Hw. split; [exact Hw | auto]. Qed.

Lemma maintains_lift_any {A} (r : result A) :
  maintains (nothing_written w0 Qe Qk) (lift r) (fun _ => True).
Proof. eapply maintains_weaken; [apply maintains_lift | auto]. Qed.

Lemma maintains_open_read_any path :
  maintains (nothing_written w0 Qe Qk) (open_read path) (fun _ => True).
Proof. eapply maintains_weaken; [apply maintains_open_read | auto]. Qed.

Lemma maintains_http_get_any url hs :
  maintains (nothing_written w0 Qe Qk) (http_get url hs) (fun _ => True).
Proof. eapply maintains_weaken; [apply maintains_http_get | auto]. Qed.

End NothingWritten.

(** Walks down a computation that writes no file, leaving the side
    conditions on the printed lines. *)
Ltac maintains_steps :=
  repeat first
    [ apply maintains_raise
    | apply maintains_ret; exact I
    | apply maintains_lift_any
    | apply maintains_print
    | apply maintains_now
    | apply maintains_open_read_any
    | apply maintains_http_get_any
    | apply maintains_try_except; [|intros ?]
    | apply maintains_then; [|intros ?]
    | apply maintains_forM_; intros ?
    | apply maintains_mapM; intros ?
    | match goal with
      | |- maintains _ (if ?b then _ else _) _ => destruct b
      | |- maintains _ (match ?x with _ => _ end) _ => destruct x
      end ].

Section Run.
Context {P : Packaging} {R : Requests} {O : OS} {J : Json} {H : Hcl2}.
Variables (w0 : World) (Qe : event -> Prop) (Qk : string -> Prop).
Hypothesis Qe_other : forall e, is_driver_line e = false -> Qe e.

Lemma get_module_versions_maintains mi token :
  maintains (nothing_written w0 Qe Qk) (get_module_versions mi token)
    (fun _ => True).
Proof.
  unfold get_module_versions, versions_request, get_modules_path,
    fetch_versions.
  maintains_steps; apply Qe_other; reflexivity.
Qed.

Lemma get_module_versions_learns_nothing mi token :
  (forall url hs, request_fails url hs) ->
  maintains (nothing_written w0 Qe Qk) (get_module_versions mi token)
    (fun versions => versions = []).
Proof.
  intros Hfail. unfold get_module_versions.
  apply maintains_then.
  { unfold versions_request, get_modules_path.
    maintains_steps; apply Qe_other; reflexivity. }
  intros [url hs]. unfold fetch_versions. apply maintains_try_except.
  - eapply maintains_bind; [apply maintains_http_get|]. intros r Hr.
    eapply maintains_bind; [apply maintains_lift|]. intros [] Hstatus.
    specialize (Hfail url hs). unfold request_fails in Hfail.
    rewrite Hr in Hfail. unfold raise_for_status in Hstatus.
    destruct (Z.leb_spec 400 (status_code r)); [|lia].
    destruct (Z.ltb_spec (status_code r) 600); [|lia].
    discriminate Hstatus.
  - intros e.
    destruct e; try destruct (_ =? 404);
      (apply maintains_then;
         [maintains_steps; apply Qe_other; reflexivity | intros _]);
      now apply maintains_ret.
Qed.

Lemma forM_print_maintains (out : list event) :
  Forall Qe out ->
  maintains (nothing_written w0 Qe Qk) (forM_ print out) (fun _ => True).
Proof.
  induction 1 as [|e out He _ IH]; simpl.
  - now apply maintains_ret.
  - apply maintains_then; [now apply maintains_print | intros _; exact IH].
Qed.

Lemma scan_items_lines path items :
  Forall (fun e => is_driver_line e = false) (snd (fst (scan_items path items))).
Proof.
  induction items as [|[module_name body] rest IH]; simpl; [constructor|].
  destruct (default (PStr "") (dict_get "source" body));
    try (simpl; constructor).
  destruct (scan_items path rest) as [[found out] ex]; simpl in *.
  destruct (parse_module_source s); simpl; [exact IH|].
  repeat constructor. exact IH.
Qed.

Lemma scan_blocks_lines path blocks :
  Forall (fun e => is_driver_line e = false) (snd (fst (scan_blocks path blocks))).
Proof.
  induction blocks as [|b rest IH]; simpl; [constructor|].
  pose proof (scan_items_lines path b) as Hb.
  destruct (scan_items path b) as [[found out] [e|]]; simpl in *; [exact Hb|].
  destruct (scan_blocks path rest) as [[found' out'] ex]; simpl in *.
  now apply Forall_app.
Qed.

Lemma scan_file_maintains path :
  maintains (nothing_written w0 Qe Qk) (scan_file path) (fun _ => True).
Proof.
  unfold scan_file. apply maintains_try_except.
  - apply maintains_then; [apply maintains_open_read_any|]. intros content.
    apply maintains_then; [apply maintains_lift_any|]. intros config.
    unfold scan_config. pose proof (scan_blocks_lines path
      (default [] (cfg_module config))) as Hout.
    destruct (scan_blocks path (default [] (cfg_module config)))
      as [[found out] ex]; simpl in Hout.
    apply maintains_then.
    + apply forM_print_maintains.
      eapply Forall_impl; [exact Hout | exact Qe_other].
    + intros _. maintains_steps. apply Qe_other; reflexivity.
  - intros e. maintains_steps. apply Qe_other; reflexivity.
Qed.

Lemma main_maintains args :
  (forall token m,
     maintains (nothing_written w0 Qe Qk) (process_module args token m)
       (fun _ => True)) ->
  maintains (nothing_written w0 Qe Qk) (main args) (fun _ => True).
Proof.
  intros Hloop. unfold main, get_terraform_token, scan_terraform_modules.
  destruct (negb (isdir (path args)));
    [maintains_steps; apply Qe_other; reflexivity|].
  apply maintains_then;
    [destruct (use_token args); maintains_steps; apply Qe_other; reflexivity|].
  intros token. apply maintains_then.
  - apply maintains_then; [|intros ?; now apply maintains_ret].
    apply maintains_mapM. intros ?. apply scan_file_maintains.
  - intros modules. destruct modules as [|m rest];
      [apply maintains_print; apply Qe_other; reflexivity|].
    apply maintains_then;
      [apply maintains_print; apply Qe_other; reflexivity|]. intros _.
    apply maintains_then;
      [apply maintains_print; apply Qe_other; reflexivity|]. intros _.
    apply maintains_forM_. intros ?. apply Hloop.
Qed.
End Run.

Lemma nothing_written_start (w : World) Qe Qk :
  Forall Qk (stdin w) -> nothing_written w Qe Qk w.
Proof.
  intros Hk. repeat split; auto. exists []. now rewrite app_nil_r.
Qed.

(** ** Who decides on an update *)

Section Consent.
Context {P : Packaging} {R : Requests} {O : OS} {J : Json} {H : Hcl2}.

Lemma process_module_asks (args : Args) (w0 : World) token m :
  all args = false ->
  maintains
    (nothing_written w0 (report_line (update args))
       (fun line => update args = true -> declines line))
    (process_module args token m) (fun _ => True).
Proof.
  intros Hall. unfold process_module.
  apply maintains_then;
    [apply get_module_versions_maintains; now intros []|].
  intros versions. destruct (constraint m) as [| | |c| |];
    try apply maintains_raise.
  apply maintains_then; [destruct (Py.truthy c); maintains_steps|].
  intros latest_matching.
  apply maintains_then; [apply maintains_print; exact I|]. intros _.
  rewrite Hall. cbn [orb].
  destruct (py_truthy _ && update args) eqn:Hask;
    [|now apply maintains_ret].
  apply andb_true_iff in Hask as [_ Hupd].
  eapply maintains_bind; [apply maintains_input; exact Hupd|].
  intros answer Hno.
  destruct (String.eqb_spec (Py.lower (Py.strip answer)) "y") as [Hy|_];
    [now elim (Hno Hupd) | now apply maintains_ret].
Qed.

(** Without [--all] the run writes no file and makes no backup unless a
    line waiting on the keyboard is a yes: when [--update] is not given
    either, or when every line that can be read is something else than [y]
    or [Y] between white space, the files and the record of the writes are
    at the end what they were at the start, whatever the registry answers
    and however the run ends.  No line of an update is printed, and a prompt
    is printed only under [--update]. *)
Theorem main_writes_only_on_consent (args : Args) (w : World) :
  all args = false ->
  (update args = true -> Forall declines (stdin w)) ->
  files (snd (main args w)) = files w /\
  fs_log (snd (main args w)) = fs_log w /\
  exists out, stdout (snd (main args w)) = stdout w ++ out /\
              Forall (report_line (update args)) out.
Proof.
  intros Hall Hkeys.
  assert (Hstart : nothing_written w (report_line (update args))
                     (fun line => update args = true -> declines line) w).
  { apply nothing_written_start. apply Forall_forall. intros line Hin Hupd.
    specialize (Hkeys Hupd). rewrite Forall_forall in Hkeys. now apply Hkeys. }
  assert (Hother : forall e, is_driver_line e = false ->
                              report_line (update args) e) by now intros [].
  destruct (main_maintains w _ _ Hother args
              (fun token m => process_module_asks args w token m Hall)
              w Hstart) as [(Hf & Hl & Hout & _) _].
  auto.
Qed.
End Consent.

Lemma main_writes_only_on_consent_example :
  Forall declines ["no"] /\
  files (snd (@main Pep440.packaging_26
                (Fixture.registry_answering (Fixture.listing ["2.0.0"; "1.0.0"]))
                Fixture.os Fixture.json Fixture.hcl2 Keyboard.asking
                (Keyboard.world ["no"])))
  = files (Keyboard.world ["no"]).
Proof.
  assert (Hno : Forall declines ["no"]).
  { repeat constructor. unfold declines. vm_compute. discriminate. }
  split; [exact Hno|].
  apply (@main_writes_only_on_consent Pep440.packaging_26
           (Fixture.registry_answering (Fixture.listing ["2.0.0"; "1.0.0"]))
           Fixture.os Fixture.json Fixture.hcl2 Keyboard.asking
           (Keyboard.world ["no"]) eq_refl (fun _ => Hno)).
Defined.

(** ** A registry that answers nothing *)

Section Unreachable.
Context {P : Packaging} {R : Requests} {O : OS} {J : Json} {H : Hcl2}.

Lemma find_latest_matching_version_nil c :
  find_latest_matching_version [] c = Ok "".
Proof.
  unfold find_latest_matching_version, find_latest_matching_version_try.
  now destruct (SpecifierSet_init c).
Qed.

Lemma process_module_blank (args : Args) (w0 : World) Qk token m :
  (forall url hs, request_fails url hs) ->
  maintains (nothing_written w0 blank_line Qk)
    (process_module args token m) (fun _ => True).
Proof.
  intros Hfail. unfold process_module.
  eapply maintains_bind;
    [apply get_module_versions_learns_nothing; [now intros [] | exact Hfail]|].
  intros versions ->. destruct (constraint m) as [| | |c| |];
    try apply maintains_raise.
  apply maintains_bind with (post := fun lm => lm = "").
  { destruct (Py.truthy c); [|now apply maintains_ret].
    eapply maintains_weaken; [apply maintains_lift|].
    intros a. rewrite find_latest_matching_version_nil. now intros [= <-]. }
  intros latest_matching ->.
  apply maintains_then; [now apply maintains_print|]. intros _.
  now apply maintains_ret.
Qed.

(** When no request brings a document, because it fails or is answered
    with a status from 400 to 599, the run learns nothing and changes
    nothing, in every mode and also with [--all]: no file is written, no
    backup is made, nobody is asked, and every row of the table has an empty
    flag and empty columns for the latest matching and the latest
    version. *)
Theorem main_learns_nothing_from_failing_registry (args : Args) (w : World) :
  (forall url hs, request_fails url hs) ->
  files (snd (main args w)) = files w /\
  fs_log (snd (main args w)) = fs_log w /\
  exists out, stdout (snd (main args w)) = stdout w ++ out /\
              Forall blank_line out.
Proof.
  intros Hfail.
  assert (Hother : forall e, is_driver_line e = false -> blank_line e)
    by now intros [].
  assert (Hstart : nothing_written w blank_line (fun _ => True) w)
    by (apply nothing_written_start, Forall_forall; auto).
  destruct (main_maintains w _ _ Hother args
              (fun token m => process_module_blank args w _ token m Hfail)
              w Hstart) as [(Hf & Hl & Hout & _) _].
  auto.
Qed.
End Unreachable.

Lemma main_learns_nothing_from_failing_registry_example :
  (forall url hs, @request_fails (Fixture.registry_failing 503) url hs) /\
  fs_log (snd (@main Pep440.packaging_26 (Fixture.registry_failing 503)
                 Fixture.os Fixture.json Fixture.hcl2 Keyboard.updating_all
                 Fixture.world)) = [].
Proof.
  assert (Hfail : forall url hs,
            @request_fails (Fixture.registry_failing 503) url hs).
  { intros url hs. unfold request_fails. simpl. lia. }
  split; [exact Hfail|].
  apply (@main_learns_nothing_from_failing_registry Pep440.packaging_26
           (Fixture.registry_failing 503) Fixture.os Fixture.json Fixture.hcl2
           Keyboard.updating_all Fixture.world Hfail).
Defined.

(** ** What the scan returns *)

Lemma only_printed_refl w : only_printed w w.
Proof. now repeat split. Qed.

Lemma only_printed_trans w1 w2 w3 :
  only_printed w1 w2 -> only_printed w2 w3 -> only_printed w1 w3.
Proof.
  intros (Hf & Hl & Hk & Hh & Hc) (Hf' & Hl' & Hk' & Hh' & Hc').
  repeat split; congruence.
Qed.

Lemma forM_print_run (out : list event) : forall w,
  exists w', forM_ print out w = (Ok tt, w') /\ only_printed w w'.
Proof.
  induction out as [|e out IH]; intros w; simpl.
  - exists w. split; [reflexivity | apply only_printed_refl].
  - rewrite bind_run. unfold print at 1.
    match goal with |- context [forM_ print out ?w1] =>
      destruct (IH w1) as (w' & -> & Hw') end.
    exists w'. split; [reflexivity|].
    eapply only_printed_trans; [|exact Hw']. now repeat split.
Qed.

Lemma scan_items_sound path items :
  Forall (fun m =>
            file_path m = path /\ decl_ok m /\
            exists body,
              In (name m, body) items /\
              default (PStr "") (dict_get "source" body) = PStr (source m) /\
              constraint m = default (PStr "") (dict_get "version" body))
         (fst (fst (scan_items path items))).
Proof.
  induction items as [|[module_name body] rest IH]; simpl; [constructor|].
  destruct (default (PStr "") (dict_get "source" body)) as [| | |s| |] eqn:Hs;
    try (simpl; constructor).
  destruct (scan_items path rest) as [[found out] ex]; simpl in *.
  assert (Hrest : Forall (fun m =>
            file_path m = path /\ decl_ok m /\
            exists body0,
              ((module_name, body) = (name m, body0) \/ In (name m, body0) rest) /\
              default (PStr "") (dict_get "source" body0) = PStr (source m) /\
              constraint m = default (PStr "") (dict_get "version" body0))
            found).
  { eapply Forall_impl; [exact IH|]. intros m (Hp & Hok & body0 & Hin & Hrest).
    split; [exact Hp|]. split; [exact Hok|]. exists body0. auto. }
  destruct (parse_module_source s) as [mi|] eqn:Hmi; simpl; [|exact Hrest].
  constructor; [|exact Hrest]. simpl.
  split; [reflexivity|]. split; [exact Hmi|]. exists body. auto.
Qed.

Lemma scan_config_sound path config :
  Forall (declared_in path config) (fst (fst (scan_config path config))).
Proof.
  unfold scan_config, declared_in.
  destruct (cfg_module config) as [blocks|]; simpl; [|constructor].
  assert (Hblocks : forall bs,
            Forall (fun m =>
                      file_path m = path /\ decl_ok m /\
                      exists b body,
                        In b bs /\ In (name m, body) b /\
                        default (PStr "") (dict_get "source" body)
                          = PStr (source m) /\
                        constraint m
                          = default (PStr "") (dict_get "version" body))
                   (fst (fst (scan_blocks path bs)))).
  { induction bs as [|b bs IH]; simpl; [constructor|].
    pose proof (scan_items_sound path b) as Hb.
    assert (Hb' : Forall (fun m =>
                      file_path m = path /\ decl_ok m /\
                      exists b0 body,
                        (b = b0 \/ In b0 bs) /\ In (name m, body) b0 /\
                        default (PStr "") (dict_get "source" body)
                          = PStr (source m) /\
                        constraint m
                          = default (PStr "") (dict_get "version" body))
                   (fst (fst (scan_items path b)))).
    { eapply Forall_impl; [exact Hb|].
      intros m (Hp & Hok & body & Hin & Hrest).
      split; [exact Hp|]. split; [exact Hok|]. exists b, body. auto. }
    destruct (scan_items path b) as [[found out] [e|]]; simpl in *;
      [exact Hb'|].
    destruct (scan_blocks path bs) as [[found' out'] ex]; simpl in *.
    apply Forall_app. split; [exact Hb'|].
    eapply Forall_impl; [exact IH|].
    intros m (Hp & Hok & b0 & body & Hin & Hrest).
    split; [exact Hp|]. split; [exact Hok|]. exists b0, body. auto. }
  eapply Forall_impl; [apply Hblocks|].
  intros m (Hp & Hok & b & body & Hin & Hrest).
  split; [exact Hp|]. split; [exact Hok|]. exists blocks, b, body. auto.
Qed.

Section Scan.
Context {O : OS} {H : Hcl2}.

Lemma scan_file_run path w :
  exists found w',
    scan_file path w = (Ok found, w') /\ only_printed w w' /\
    Forall (fun m =>
              exists content config,
                files w !! path = Some content /\ readable path = true /\
                hcl2_load content = Some config /\
                declared_in path config m) found.
Proof.
  assert (Hfailed : forall w1, only_printed w w1 ->
            exists found w',
              (print (ParseFailed path) ;; mret []) w1
                = (Ok found, w') /\ only_printed w w' /\
              Forall (fun m =>
                exists content config,
                  files w !! path = Some content /\ readable path = true /\
                  hcl2_load content = Some config /\
                  declared_in path config m) found).
  { intros w1 Hw1. eexists [], _. split; [reflexivity|].
    split; [|constructor].
    eapply only_printed_trans; [exact Hw1|]. now repeat split. }
  unfold scan_file, try_except. rewrite bind_run. unfold open_read at 1.
  destruct (files w !! path) as [content|] eqn:Hcontent;
    [|apply Hfailed, only_printed_refl].
  destruct (readable path) eqn:Hreadable;
    [|apply Hfailed, only_printed_refl].
  rewrite bind_run. unfold lift at 1.
  destruct (hcl2_load content) as [config|] eqn:Hconfig; simpl;
    [|apply Hfailed, only_printed_refl].
  pose proof (scan_config_sound path config) as Hsound.
  destruct (scan_config path config) as [[found out] ex]; simpl in Hsound.
  rewrite bind_run.
  destruct (forM_print_run out w) as (w1 & -> & Hw1).
  rewrite bind_run.
  exists found.
  destruct ex as [e|]; simpl; eexists; (split; [reflexivity|]);
    (split;
     [ first [ exact Hw1
             | eapply only_printed_trans; [exact Hw1|]; now repeat split ]
     | eapply Forall_impl; [exact Hsound|];
       intros m Hm; exists content, config; auto ]).
Qed.

(** The scan never raises and only reads and prints: the files, the
    keyboard and the network are as they were.  Every declaration it
    returns comes from a file that the walk lists, that can be read and that
    parses, and is declared in that file: it carries the name, the source
    and the version of an entry of a module block there, and the reference
    that its source parses to. *)
Theorem scan_terraform_modules_sound (root : string) (w : World) :
  exists found w',
    scan_terraform_modules root w = (Ok found, w') /\
    only_printed w w' /\
    Forall (fun m =>
              In (file_path m) (tf_files (walk root)) /\
              exists content config,
                files w !! file_path m = Some content /\
                readable (file_path m) = true /\
                hcl2_load content = Some config /\
                declared_in (file_path m) config m) found.
Proof.
  unfold scan_terraform_modules.
  assert (Hall : forall paths w1, only_printed w w1 ->
            exists founds w',
              mapM scan_file paths w1 = (Ok founds, w') /\
              only_printed w w' /\
              Forall (fun m =>
                In (file_path m) paths /\
                exists content config,
                  files w !! file_path m = Some content /\
                  readable (file_path m) = true /\
                  hcl2_load content = Some config /\
                  declared_in (file_path m) config m) (concat founds)).
  { induction paths as [|p paths IH]; intros w1 Hw1; simpl.
    - exists [], w1. split; [reflexivity|]. split; [exact Hw1 | constructor].
    - rewrite bind_run.
      destruct (scan_file_run p w1) as (found & w2 & -> & Hw2 & Hfound).
      rewrite bind_run.
      destruct (IH w2 (only_printed_trans _ _ _ Hw1 Hw2))
        as (founds & w3 & -> & Hw3 & Hfounds).
      exists (found :: founds), w3. split; [reflexivity|].
      split; [exact Hw3|]. simpl. apply Forall_app. split.
      + eapply Forall_impl; [exact Hfound|].
        intros m (content & config & Hc & Hr & Hl & Hd).
        pose proof Hd as (Hp & _). rewrite Hp.
        split; [now left|]. exists content, config.
        destruct Hw1 as (<- & _). auto.
      + eapply Forall_impl; [exact Hfounds|].
        intros m (Hin & Hrest). split; [now right | exact Hrest]. }
  rewrite bind_run.
  destruct (Hall (tf_files (walk root)) w (only_printed_refl w))
    as (founds & w' & -> & Hw' & Hfounds).
  exists (concat founds), w'. split; [reflexivity|]. split; assumption.
Qed.
End Scan.

(** ** Two updates of one file *)

Section Twice.
Context {O : OS} {H : Hcl2}.

Lemma update_module_version_succeeds
  (path module_name new_version : string) (w : World) content config dumped :
  files w !! path = Some content ->
  readable path = true ->
  writable (backup_path_of path (strftime_now (clock_reads w))) = true ->
  writable path = true ->
  hcl2_load content = Some config ->
  hcl2_dump (set_module_version module_name new_version config)
    = Some dumped ->
  exists w',
    update_module_version path module_name new_version w = (Ok tt, w') /\
    files w' = <[path := dumped]>
                 (<[backup_path_of path (strftime_now (clock_reads w))
                    := content]> (files w)) /\
    clock_reads w' = S (clock_reads w).
Proof.
  intros Hf Hr Hwb Hwp Hl Hd.
  pose proof (backup_path_of_ne path (strftime_now (clock_reads w))) as Hne.
  unfold update_module_version, try_except.
  unfold create_backup, now, open_read, open_write, write, print.
  rewrite !bind_run. simpl. rewrite Hf, Hr, !bind_run, Hwb. simpl.
  unfold parse_and_update, open_read, open_write, write, print, lift.
  rewrite ?bind_run. simpl.
  rewrite lookup_insert_ne, lookup_insert_ne, Hf, Hr by exact Hne.
  rewrite ?bind_run, Hl. simpl. rewrite ?bind_run, Hwp. simpl.
  rewrite ?bind_run, Hd. simpl. rewrite ?bind_run. simpl.
  eexists. split; [reflexivity|]. simpl.
  split; [|reflexivity].
  rewrite insert_insert_eq. f_equal. apply insert_insert_eq.
Qed.

(** The name of a backup is the name of the file and the second on the
    clock.  When one file is updated twice while the clock shows the same
    second, as with two declarations in one file under [--all], the second
    backup replaces the first: the backup then holds the file as the first
    update left it, and the content the file had before the run is in
    neither file. *)
Theorem update_module_version_twice_in_a_second
  (path name1 version1 name2 version2 : string) (w : World)
  (content dumped dumped' : string) (config config' : Config) :
  strftime_now (S (clock_reads w)) = strftime_now (clock_reads w) ->
  files w !! path = Some content ->
  readable path = true ->
  writable path = true ->
  writable (backup_path_of path (strftime_now (clock_reads w))) = true ->
  hcl2_load content = Some config ->
  hcl2_dump (set_module_version name1 version1 config) = Some dumped ->
  hcl2_load dumped = Some config' ->
  hcl2_dump (set_module_version name2 version2 config') = Some dumped' ->
  exists w',
    (update_module_version path name1 version1 ;;
     update_module_version path name2 version2) w = (Ok tt, w') /\
    files w' = <[path := dumped']>
                 (<[backup_path_of path (strftime_now (clock_reads w))
                    := dumped]> (files w)).
Proof.
  intros Hclock Hf Hr Hwp Hwb Hl Hd Hl' Hd'.
  pose proof (backup_path_of_ne path (strftime_now (clock_reads w))) as Hne.
  destruct (update_module_version_succeeds path name1 version1 w
              content config dumped Hf Hr Hwb Hwp Hl Hd)
    as (w1 & Hrun1 & Hfiles1 & Hclock1).
  assert (Hf1 : files w1 !! path = Some dumped).
  { rewrite Hfiles1. apply lookup_insert_eq. }
  assert (Hwb1 : writable (backup_path_of path
                             (strftime_now (clock_reads w1))) = true).
  { now rewrite Hclock1, Hclock. }
  destruct (update_module_version_succeeds path name2 version2 w1
              dumped config' dumped' Hf1 Hr Hwb1 Hwp Hl' Hd')
    as (w2 & Hrun2 & Hfiles2 & _).
  exists w2. rewrite bind_run, Hrun1. split; [exact Hrun2|].
  rewrite Hfiles2, Hfiles1, Hclock1, Hclock.
  rewrite (insert_insert_ne _ path) by congruence.
  rewrite insert_insert_eq.
  rewrite (insert_insert_ne _ _ path) by congruence.
  now rewrite insert_insert_eq.
Qed.
End Twice.

Lemma update_module_version_twice_in_a_second_example :
  exists w',
    (@update_module_version Fixture.os (Reparsing.hcl2 "2.0.0")
       "./main.tf" "consul" "2.0.0" ;;
     @update_module_version Fixture.os (Reparsing.hcl2 "2.0.0")
       "./main.tf" "consul" "3.0.0") Fixture.world = (Ok tt, w') /\
    files w' !! "./main.tf.backup_20240101_120000"
      = Some "module consul {source=hashicorp/consul/aws;version=2.0.0;}" /\
    files w' !! "./main.tf"
      = Some "module consul {source=hashicorp/consul/aws;version=3.0.0;}".
Proof.
  destruct (@update_module_version_twice_in_a_second
              Fixture.os (Reparsing.hcl2 "2.0.0")
              "./main.tf" "consul" "2.0.0" "consul" "3.0.0" Fixture.world
              Fixture.main_tf
              (Reparsing.dump (Reparsing.updated "2.0.0"))
              (Reparsing.dump
                 (set_module_version "consul" "3.0.0"
                    (Reparsing.updated "2.0.0")))
              Fixture.main_config (Reparsing.updated "2.0.0")
              eq_refl eq_refl eq_refl eq_refl eq_refl eq_refl eq_refl
              eq_refl eq_refl)
    as (w' & Hrun & Hfiles).
  exists w'. split; [exact Hrun|]. rewrite Hfiles. split; reflexivity.
Defined.

(** ** The scan after an update *)

Lemma scan_items_names path items :
  Forall (fun m => In (name m) (map fst items))
         (fst (fst (scan_items path items))).
Proof.
  eapply Forall_impl; [apply scan_items_sound|].
  intros m (_ & _ & body & Hin & _).
  apply in_map_iff. exists (name m, body). auto.
Qed.

Lemma dict_get_None_not_key {V} k (d : list (string * V)) :
  dict_get k d = None -> ~ In k (map fst d).
Proof.
  induction d as [|[k' v] d IH]; simpl; [tauto|].
  destruct (String.eqb_spec k' k); [discriminate|].
  intros Hd [Hk|Hin]; [contradiction | now apply IH].
Qed.

Lemma reversioned_other module_name new_version (found : list ModuleDecl) :
  Forall (fun m => name m <> module_name) found ->
  Forall2 (reversioned module_name new_version) found found.
Proof.
  intros Hfound. apply Forall_Forall2_diag.
  eapply Forall_impl; [exact Hfound|]. intros m Hm.
  unfold reversioned. repeat split.
  destruct (String.eqb_spec (name m) module_name); [contradiction|reflexivity].
Qed.

Lemma scan_items_not_named path module_name items :
  ~ In module_name (map fst items) ->
  Forall (fun m => name m <> module_name) (fst (fst (scan_items path items))).
Proof.
  intros Hnot. eapply Forall_impl; [apply scan_items_names|].
  intros m Hin Heq. apply Hnot. now rewrite <- Heq.
Qed.

Lemma scan_items_after_update path module_name new_version items body :
  distinct_keys items ->
  dict_get module_name items = Some body ->
  let before := scan_items path items in
  let after :=
    scan_items path
      (dict_set module_name (dict_set "version" (PStr new_version) body) items)
  in
  snd after = snd before /\ snd (fst after) = snd (fst before) /\
  Forall2 (reversioned module_name new_version)
          (fst (fst before)) (fst (fst after)).
Proof.
  unfold distinct_keys.
  induction items as [|[k bd] rest IH]; simpl; [discriminate|].
  intros Hkeys Hget. inversion Hkeys as [|? ? Hk Hrest]; subst.
  destruct (String.eqb_spec k module_name) as [->|Hne].
  - injection Hget as ->. simpl.
    rewrite dict_get_set_ne by discriminate.
    destruct (default (PStr "") (dict_get "source" body)) as [| | |s| |];
      try (repeat split; constructor).
    assert (Hk' : ~ In module_name (map fst rest))
      by now rewrite <- list_elem_of_In.
    pose proof (scan_items_not_named path module_name rest Hk') as Hothers.
    destruct (scan_items path rest) as [[found out] ex]; simpl in *.
    destruct (parse_module_source s) as [mi|]; simpl.
    + repeat split; auto. constructor.
      * unfold reversioned. simpl. repeat split.
        rewrite String.eqb_refl. now rewrite dict_get_set_eq.
      * now apply reversioned_other.
    + repeat split; auto. now apply reversioned_other.
  - simpl.
    destruct (default (PStr "") (dict_get "source" bd)) as [| | |s| |];
      try (repeat split; constructor).
    specialize (IH Hrest Hget). simpl in IH.
    destruct (scan_items path rest) as [[found out] ex].
    destruct (scan_items path
                (dict_set module_name
                   (dict_set "version" (PStr new_version) body) rest))
      as [[found' out'] ex'].
    simpl in IH. destruct IH as (-> & -> & Hfound).
    destruct (parse_module_source s) as [mi|]; simpl.
    + repeat split; auto. constructor; [|exact Hfound].
      unfold reversioned. simpl. repeat split.
      destruct (String.eqb_spec k module_name); [contradiction|reflexivity].
    + repeat split; auto.
Qed.

(** A scan of the configuration after an update of [module_name] to
    [new_version] finds the declarations it found before, in the same
    order: those of that name now carry the new version as their
    constraint, the others are as they were.  It prints the same lines and
    stops at the same exception, if any. *)
Theorem scan_config_after_update
  (path module_name new_version : string) (config : Config) :
  Forall distinct_keys (default [] (cfg_module config)) ->
  snd (scan_config path (set_module_version module_name new_version config))
    = snd (scan_config path config) /\
  snd (fst (scan_config path
              (set_module_version module_name new_version config)))
    = snd (fst (scan_config path config)) /\
  Forall2 (reversioned module_name new_version)
    (fst (fst (scan_config path config)))
    (fst (fst (scan_config path
                 (set_module_version module_name new_version config)))).
Proof.
  unfold scan_config, set_module_version. simpl.
  destruct (cfg_module config) as [blocks|]; simpl;
    [|intros _; repeat split; constructor].
  induction 1 as [|b blocks Hb _ IH]; simpl; [repeat split; constructor|].
  assert (Hhead :
    snd (scan_items path (set_block_version module_name new_version b))
      = snd (scan_items path b) /\
    snd (fst (scan_items path (set_block_version module_name new_version b)))
      = snd (fst (scan_items path b)) /\
    Forall2 (reversioned module_name new_version)
      (fst (fst (scan_items path b)))
      (fst (fst (scan_items path
                   (set_block_version module_name new_version b))))).
  { unfold set_block_version.
    destruct (dict_get module_name b) as [body|] eqn:Hget.
    - now apply scan_items_after_update.
    - repeat split. apply reversioned_other, scan_items_not_named.
      now apply dict_get_None_not_key. }
  destruct (scan_items path b) as [[found out] ex].
  destruct (scan_items path (set_block_version module_name new_version b))
    as [[found1 out1] ex1].
  simpl in Hhead. destruct Hhead as (-> & -> & Hfound).
  destruct ex as [e|]; simpl; [repeat split; auto|].
  destruct (scan_blocks path blocks) as [[found' out'] ex'].
  destruct (scan_blocks path
              (map (set_block_version module_name new_version) blocks))
    as [[found1' out1'] ex1'].
  simpl in IH. destruct IH as (-> & -> & Hfound').
  simpl. repeat split; auto. now apply Forall2_app.
Qed.

Lemma scan_config_after_update_example :
  Forall distinct_keys (default [] (cfg_module Fixture.main_config)) /\
  Forall2 (reversioned "consul" "2.0.0")
    (fst (fst (scan_config "./main.tf" Fixture.main_config)))
    (fst (fst (scan_config "./main.tf"
                 (set_module_version "consul" "2.0.0" Fixture.main_config)))).
Proof.
  assert (Hkeys : Forall distinct_keys
                    (default [] (cfg_module Fixture.main_config))).
  { repeat constructor. simpl. intros Hin. inversion Hin. }
  split; [exact Hkeys|].
  apply (scan_config_after_update "./main.tf" "consul" "2.0.0"
           Fixture.main_config Hkeys).
Defined.

(** ** The flag of a range *)

(** A constraint that does not start with [=] is shown as the current
    version as it is, so it is compared as text with the versions of the
    registry.  Unless the constraint is itself one of the listed versions,
    the declaration is flagged as soon as the registry lists a version,
    also when the latest version already satisfies the constraint. *)
Theorem range_constraint_is_flagged {P : Packaging}
  (versions : list string) (c latest_matching : string) :
  Py.startswith "=" c = false ->
  ~ In c versions ->
  hd "" versions <> "" ->
  latest_matching = "" \/
  find_latest_matching_version versions c = Ok latest_matching ->
  update_flag (hd "" versions) (current_version_of c) latest_matching = "(Y)".
Proof.
  intros Hrange Hnot Hlatest Hmatching.
  rewrite (current_version_of_range c Hrange).
  apply update_flag_cases. split; [exact Hlatest|]. right.
  assert (Hhd : In (hd "" versions) versions).
  { destruct versions as [|v rest]; [now elim Hlatest | now left]. }
  split; [intros Heq; apply Hnot; now rewrite <- Heq|].
  destruct Hmatching as [->|Hfound]; [now left|].
  destruct (find_latest_matching_version_In _ _ _ Hfound) as [->|Hin];
    [now left | right].
  intros Heq. apply Hnot. now rewrite <- Heq.
Qed.

Lemma range_constraint_is_flagged_example :
  @find_latest_matching_version Pep440.packaging_26
     ["1.5.0"; "1.0.0"] ">= 1.0.0" = Ok "1.5.0" /\
  update_flag "1.5.0" (current_version_of ">= 1.0.0") "1.5.0" = "(Y)".
Proof.
  assert (Hfound : @find_latest_matching_version Pep440.packaging_26
                     ["1.5.0"; "1.0.0"] ">= 1.0.0" = Ok "1.5.0")
    by reflexivity.
  split; [exact Hfound|].
  apply (@range_constraint_is_flagged Pep440.packaging_26
           ["1.5.0"; "1.0.0"] ">= 1.0.0" "1.5.0" eq_refl).
  - simpl. intros [Hc|[Hc|[]]]; discriminate.
  - discriminate.
  - right. exact Hfound.
Defined.

(** ** The width of the table *)

Lemma length_ljust n s :
  String.length (ljust n s) = Nat.max n (String.length s).
Proof.
  unfold ljust. rewrite length_append.
  assert (Hpad : forall k, String.length
                   (string_of_list_ascii (repeat " "%char k)) = k).
  { induction k as [|k IH]; simpl; [reflexivity | now rewrite IH]. }
  rewrite Hpad. lia.
Qed.

(** The header and the rule are equally wide.  A row is never narrower,
    and it is exactly as wide when every field fits its column: 7
    characters for the flag, 24 for the name, 10 for the constraint, 8 for
    the current version, 15 for the latest matching and 6 for the latest
    version.  A longer field is printed whole and pushes the columns after
    it to the right.  The flag always fits. *)
Theorem render_row_width
  (flag module_name constr current latest_matching latest : string) :
  let row :=
    render_row flag module_name constr current latest_matching latest in
  String.length table_rule = String.length table_header /\
  (String.length table_header <= String.length row)%nat /\
  (String.length row = String.length table_header <->
   (String.length flag <= 7 /\ String.length module_name <= 24 /\
    String.length constr <= 10 /\ String.length current <= 8 /\
    String.length latest_matching <= 15 /\ String.length latest <= 6)%nat) /\
  (forall latest_version current_version,
     String.length (update_flag latest_version current_version latest_matching)
     <= 7)%nat.
Proof.
  intros row. unfold row, render_row.
  rewrite !length_append, !length_ljust.
  change (String.length table_rule) with 89%nat.
  change (String.length table_header) with 89%nat.
  change (String.length "| ") with 2%nat.
  change (String.length " | ") with 3%nat.
  change (String.length " |") with 2%nat.
  split; [reflexivity|]. split; [lia|]. split; [lia|].
  intros lv cv. unfold update_flag.
  destruct (py_truthy _); simpl; lia.
Qed.
